(** * Categorical DQN (ch07/07_dqn_categorical.py): a functional model

    The development follows the Python source top to bottom: the module
    constants, the tensor operations the script takes from numpy and
    torch, the two network classes, [unpack_batch], [calc_loss] and the
    training loop of the main block.

    Numbers: Python ints are [Z], counters and sizes are [nat], and
    floating-point values are modelled by exact rationals [Q] (an
    idealisation: no rounding, no overflow).  The exponential used by
    the softmax is a parameter of the sections that need it.

    Failure: every torch or Python operation that can raise returns a
    [result]; the first exception aborts the computation, as in Python.

    Objects: the functional model works on values.  Module [Mem] gives
    [unpack_batch] and [calc_loss] a second time over arrays in a
    memory, with the aliasing and the write in place of the source, and
    is related to the functional model. *)

From Stdlib Require Import String.
From Stdlib Require Import List ZArith QArith Qminmax Qround Qpower Lia Lqa Bool Arith.
Import ListNotations.

Set Implicit Arguments.
Local Open Scope Z_scope.
Local Open Scope nat_scope.

(** ** Exceptions *)

Inductive error : Type :=
| RuntimeError        (* torch: shape or size mismatch *)
| IndexError          (* index out of range *)
| ValueError
| ZeroDivisionError.

Inductive result (A : Type) : Type :=
| Ok (a : A)
| Raise (e : error).

Arguments Ok {A} a.
Arguments Raise {A} e.

Definition bind {A B : Type} (c : result A) (k : A -> result B) : result B :=
  match c with
  | Ok a => k a
  | Raise e => Raise e
  end.

Declare Scope result_scope.
Delimit Scope result_scope with result.
Notation "x <- c ;; k" := (bind c (fun x => k))
  (at level 61, c at next level, right associativity) : result_scope.
Notation "' pat <- c ;; k" := (bind c (fun x => match x with pat => k end))
  (at level 61, pat pattern, c at next level, right associativity) : result_scope.
Open Scope result_scope.

(** ** Module constants (lines 18-42) *)

Definition MEAN_REWARD_BOUND : Q := (39 # 2)%Q.          (* PONG_MODE: 19.5 *)
Definition GAMMA : Q := (99 # 100)%Q.
Definition BATCH_SIZE : nat := 32.
Definition REPLAY_SIZE : Z := 10000%Z.
Definition SYNC_TARGET_FRAMES : Z := 1000%Z.
Definition REPLAY_START_SIZE : Z := 10000%Z.

Definition EPSILON_DECAY_LAST_FRAME : Z := (10 ^ 5)%Z.
Definition EPSILON_START : Q := 1%Q.
Definition EPSILON_FINAL : Q := (2 # 100)%Q.

Definition Vmax : Z := 10%Z.
Definition Vmin : Z := (-10)%Z.
Definition N_ATOMS : nat := 51.

(** ** Tensors

    A tensor is a shape and its elements in row-major order, as in a
    contiguous torch tensor or numpy array. *)

Record Tensor (A : Type) : Type := mkTensor {
  shape : list nat;
  data : list A
}.

Definition numel (s : list nat) : nat := fold_right Nat.mul 1 s.

Definition wf {A : Type} (t : Tensor A) : Prop :=
  length (data t) = numel (shape t).

(** All multi-indices of a shape, in row-major order. *)
Fixpoint indices (s : list nat) : list (list nat) :=
  match s with
  | [] => [[]]
  | d :: s' => flat_map (fun i => map (cons i) (indices s')) (seq 0 d)
  end.

(** Position of a multi-index in the row-major element list. *)
Fixpoint offset (s idx : list nat) : nat :=
  match s, idx with
  | _ :: s', i :: idx' => i * numel s' + offset s' idx'
  | _, _ => 0
  end.

Definition tabulate {A : Type} (s : list nat) (f : list nat -> A) : Tensor A :=
  mkTensor s (map f (indices s)).

Definition get {A : Type} (d : A) (t : Tensor A) (idx : list nat) : A :=
  nth (offset (shape t) idx) (data t) d.

Definition qget (t : Tensor Q) (idx : list nat) : Q := get 0%Q t idx.

(** [in_range s idx]: [idx] is a valid multi-index of shape [s]. *)
Fixpoint in_range (s idx : list nat) : Prop :=
  match s, idx with
  | [], [] => True
  | d :: s', i :: idx' => i < d /\ in_range s' idx'
  | _, _ => False
  end.

Definition Qsum (l : list Q) : Q := fold_right Qplus 0%Q l.

(** Sum of [f k] for [k = 0 .. n-1]. *)
Definition Qsum_upto (n : nat) (f : nat -> Q) : Q := Qsum (map f (seq 0 n)).

(** ** torch.arange(start, end, step)

    The half-open range: [ceil((end - start) / step)] elements
    [start + i * step]; the step must be non-zero and point from
    [start] towards [end]. *)
Definition arange (start stop step : Q) : result (Tensor Q) :=
  if Qeq_bool step 0 then Raise RuntimeError
  else if (Qle_bool 0 step && Qle_bool start stop)
          || (Qle_bool step 0 && Qle_bool stop start) then
    let n := Z.to_nat (Qceiling ((stop - start) / step)) in
    Ok (mkTensor [n]
          (map (fun i => (start + inject_Z (Z.of_nat i) * step)%Q) (seq 0 n)))
  else Raise RuntimeError.

(** Line 84: the buffer registered by [CategoricalQValues.__init__]:
    [torch.arange(Vmin, Vmax, (Vmax-Vmin)/(N_ATOMS-1))].  The step is
    Python's true division of two ints by a non-zero constant. *)
Definition make_supports : result (Tensor Q) :=
  arange (inject_Z Vmin) (inject_Z Vmax)
         (inject_Z (Vmax - Vmin) / inject_Z (Z.of_nat N_ATOMS - 1))%Q.

(** Line 166: the exploration rate of frame [frame_idx], in exact
    arithmetic.  At frame 98000 the two arguments of [max] are equal
    here; in double precision the second is the larger by one rounding. *)
Definition epsilon_at (frame_idx : Z) : Q :=
  Qmax EPSILON_FINAL
       (EPSILON_START - inject_Z frame_idx / inject_Z EPSILON_DECAY_LAST_FRAME)%Q.

(** ** Tensor operations taken from torch *)

Definition zeros (s : list nat) : Tensor Q := tabulate s (fun _ => 0%Q).

(** [x.size()[0]]. *)
Definition size0 {A : Type} (x : Tensor A) : result nat :=
  match shape x with
  | n :: _ => Ok n
  | [] => Raise IndexError
  end.

(** [x.view(d1, ..., dk)]: the same elements under a new shape.  At most one
    entry of [dims] is [-1]; it is inferred from the element count, which
    the product of the other entries must divide (and not be zero). *)
Definition view {A : Type} (dims : list Z) (t : Tensor A) : result (Tensor A) :=
  let n := numel (shape t) in
  let known := filter (fun d => negb (Z.eqb d (-1))) dims in
  let p := numel (map Z.to_nat known) in
  if existsb (fun d => Z.ltb d (-1)) dims then Raise RuntimeError
  else match length dims - length known with
       | 0 => if n =? p then Ok (mkTensor (map Z.to_nat dims) (data t))
              else Raise RuntimeError
       | 1 => if p =? 0 then Raise RuntimeError
              else if n mod p =? 0 then
                Ok (mkTensor
                      (map (fun d => if Z.eqb d (-1) then n / p else Z.to_nat d) dims)
                      (data t))
              else Raise RuntimeError
       | _ => Raise RuntimeError
       end.

(** [x.float() / c]. *)
Definition div_scalar (x : Tensor Q) (c : Q) : Tensor Q :=
  mkTensor (shape x) (map (fun v => (v / c)%Q) (data x)).

(** [x * c]. *)
Definition mul_scalar (x : Tensor Q) (c : Q) : Tensor Q :=
  mkTensor (shape x) (map (fun v => (v * c)%Q) (data x)).

Definition insert_nth {A : Type} (d : nat) (k : A) (l : list A) : list A :=
  firstn d l ++ k :: skipn d l.

Definition remove_nth {A : Type} (d : nat) (l : list A) : list A :=
  firstn d l ++ skipn (S d) l.

Definition set_nth {A : Type} (d : nat) (k : A) (l : list A) : list A :=
  firstn d l ++ k :: skipn (S d) l.

(** [x.sum(dim=d)]. *)
Definition sum_dim (d : nat) (x : Tensor Q) : result (Tensor Q) :=
  if d <? length (shape x) then
    Ok (tabulate (remove_nth d (shape x))
          (fun idx => Qsum_upto (nth d (shape x) 0)
                        (fun k => qget x (insert_nth d k idx))))
  else Raise IndexError.

Definition Qmax_list (q : Q) (l : list Q) : Q := fold_left Qmax l q.

(** [x.max(d)[0]]: the maxima along dimension [d], which must not be
    empty. *)
Definition max_dim (d : nat) (x : Tensor Q) : result (Tensor Q) :=
  if d <? length (shape x) then
    match nth d (shape x) 0 with
    | 0 => Raise RuntimeError
    | S n =>
        Ok (tabulate (remove_nth d (shape x))
              (fun idx => Qmax_list (qget x (insert_nth d 0 idx))
                            (map (fun k => qget x (insert_nth d k idx)) (seq 1 n))))
    end
  else Raise IndexError.

(** [x.unsqueeze(-1)] and [x.squeeze(-1)]. *)
Definition unsqueeze_last {A : Type} (x : Tensor A) : Tensor A :=
  mkTensor (shape x ++ [1]) (data x).

Definition squeeze_last {A : Type} (x : Tensor A) : Tensor A :=
  match rev (shape x) with
  | 1 :: r => mkTensor (rev r) (data x)
  | _ => x
  end.

(** Off the gather dimension [d], no size of [index] exceeds that of
    the input. *)
Definition sizes_fit (d : nat) (si sx : list nat) : bool :=
  forallb (fun k => (k =? d) || (nth k si 0 <=? nth k sx 0)) (seq 0 (length si)).

(** [x.gather(d, index)]: [out[i][j] = x[i][index[i][j]]] for [d = 1].
    The index tensor must have as many dimensions as the input. *)
Definition gather (d : nat) (x : Tensor Q) (index : Tensor Z) : result (Tensor Q) :=
  if negb (length (shape index) =? length (shape x)) then Raise RuntimeError
  else if negb (d <? length (shape x)) then Raise RuntimeError
  else if negb (sizes_fit d (shape index) (shape x)) then Raise RuntimeError
  else if forallb (fun idx => let k := get 0%Z index idx in
                              Z.leb 0 k && Z.ltb k (Z.of_nat (nth d (shape x) 0)))
                  (indices (shape index)) then
    Ok (tabulate (shape index)
          (fun idx => qget x (set_nth d (Z.to_nat (get 0%Z index idx)) idx)))
  else Raise RuntimeError.

(** Broadcasting of two shapes, given last dimension first. *)
Fixpoint broadcast_rev (a b : list nat) : result (list nat) :=
  match a, b with
  | [], _ => Ok b
  | _, [] => Ok a
  | x :: a', y :: b' =>
      r <- broadcast_rev a' b' ;;
      if x =? y then Ok (x :: r)
      else if x =? 1 then Ok (y :: r)
      else if y =? 1 then Ok (x :: r)
      else Raise RuntimeError
  end.

Definition broadcast_shapes (a b : list nat) : result (list nat) :=
  r <- broadcast_rev (rev a) (rev b) ;; Ok (rev r).

(** The index at which an operand of shape [s] is read for the result
    index [idx]: the trailing components, with 0 on dimensions of size 1. *)
Definition bidx (s idx : list nat) : list nat :=
  map (fun '(d, i) => if d =? 1 then 0 else i)
      (combine s (skipn (length idx - length s) idx)).

Definition binop (f : Q -> Q -> Q) (a b : Tensor Q) : result (Tensor Q) :=
  s <- broadcast_shapes (shape a) (shape b) ;;
  Ok (tabulate s (fun idx => f (qget a (bidx (shape a) idx))
                               (qget b (bidx (shape b) idx)))).

Definition mul (a b : Tensor Q) : result (Tensor Q) := binop Qmult a b.
Definition add (a b : Tensor Q) : result (Tensor Q) := binop Qplus a b.

Definition list_eqb (a b : list nat) : bool :=
  (length a =? length b) && forallb (fun '(x, y) => x =? y) (combine a b).

(** [x[mask] = v] for a byte mask of the shape of [x], the case that
    [calc_loss] meets on answers of one value per transition and action.
    A mask of another shape is refused here; what torch makes of a mask
    that covers only the leading dimensions is not followed. *)
Definition masked_fill (x : Tensor Q) (mask : Tensor bool) (v : Q) : result (Tensor Q) :=
  if list_eqb (shape mask) (shape x) then
    Ok (mkTensor (shape x)
          (map (fun '(e, m) => if (m : bool) then v else e)
               (combine (data x) (data mask))))
  else Raise RuntimeError.

(** [nn.MSELoss()(input, target)]: the mean of the squared differences
    of two tensors of one shape; tensors of different shapes are refused
    here, and broadcasting of the two is not followed.  (On no elements
    torch yields nan; the rationals have none, and the quotient by 0 is
    0.) *)
Definition MSELoss (input target : Tensor Q) : result Q :=
  if list_eqb (shape input) (shape target) then
    Ok (Qsum (map (fun '(x, y) => ((x - y) * (x - y))%Q)
                  (combine (data input) (data target)))
        / inject_Z (Z.of_nat (numel (shape input))))%Q
  else Raise RuntimeError.

(** ** Layers (torch.nn) *)

(** [nn.Conv2d(in, out, kernel_size=k, stride=s)]: a weight of shape
    [out; in; k; k] and a bias of shape [out].  The initial parameter
    values are whatever the initialiser draws; [wi] and [bi] give them
    per index. *)
Record Conv2d : Type := mkConv2d {
  weight : Tensor Q;
  bias : Tensor Q;
  stride : nat
}.

Definition Conv2d_new (wi bi : list nat -> Q) (in_channels out_channels k s : nat)
  : Conv2d :=
  mkConv2d (tabulate [out_channels; in_channels; k; k] wi)
           (tabulate [out_channels] bi) s.

(** One output element of the valid (unpadded) strided
    cross-correlation: the bias plus the kernel window's weighted sum. *)
Definition Conv2d_at (m : Conv2d) (x : Tensor Q) (ic kh kw : nat)
    (idx : list nat) : Q :=
  match idx with
  | [b; o; i; j] =>
      (qget (bias m) [o] +
       Qsum (map (fun k =>
                    match k with
                    | [ci; ki; kj] =>
                        qget (weight m) [o; ci; ki; kj] *
                        qget x [b; ci; (i * stride m + ki)%nat;
                                       (j * stride m + kj)%nat]
                    | _ => 0
                    end)
                 (indices [ic; kh; kw])))%Q
  | _ => 0%Q
  end.

(** A batch [n; c; h; w] through the convolution.  A weight without
    input channels is refused, as is an input with another number of
    channels or one smaller than the kernel. *)
Definition Conv2d_forward (m : Conv2d) (x : Tensor Q) : result (Tensor Q) :=
  match shape x, shape (weight m) with
  | [n; c; h; w], [oc; ic; kh; kw] =>
      if (1 <=? ic) && (c =? ic) && (kh <=? h) && (kw <=? w) && (1 <=? stride m) then
        let oh := (h - kh) / stride m + 1 in
        let ow := (w - kw) / stride m + 1 in
        Ok (tabulate [n; oc; oh; ow] (Conv2d_at m x ic kh kw))
      else Raise RuntimeError
  | _, _ => Raise RuntimeError
  end.

(** [nn.Linear(in, out)]: weight [out; in], bias [out]. *)
Record Linear : Type := mkLinear {
  lin_weight : Tensor Q;
  lin_bias : Tensor Q
}.

Definition Linear_new (wi bi : list nat -> Q) (in_features out_features : nat)
  : Linear :=
  mkLinear (tabulate [out_features; in_features] wi) (tabulate [out_features] bi).

(** One output element of [x @ weight.T + bias]. *)
Definition Linear_at (m : Linear) (x : Tensor Q) (in_f : nat) (idx : list nat) : Q :=
  let o := last idx 0 in
  let p := removelast idx in
  (qget (lin_bias m) [o] +
   Qsum_upto in_f (fun i => qget x (p ++ [i]) * qget (lin_weight m) [o; i]))%Q.

(** [x @ weight.T + bias] over the last dimension of [x]. *)
Definition Linear_forward (m : Linear) (x : Tensor Q) : result (Tensor Q) :=
  match shape (lin_weight m), rev (shape x) with
  | [out_f; in_f], l :: rpre =>
      if l =? in_f then Ok (tabulate (rev rpre ++ [out_f]) (Linear_at m x in_f))
      else Raise RuntimeError
  | _, _ => Raise RuntimeError
  end.

Definition ReLU_forward (x : Tensor Q) : Tensor Q :=
  mkTensor (shape x) (map (Qmax 0) (data x)).

Inductive Layer : Type :=
| LConv2d (m : Conv2d)
| LReLU
| LLinear (m : Linear).

Definition Layer_forward (l : Layer) (x : Tensor Q) : result (Tensor Q) :=
  match l with
  | LConv2d m => Conv2d_forward m x
  | LReLU => Ok (ReLU_forward x)
  | LLinear m => Linear_forward m x
  end.

(** [nn.Sequential]: the layers applied in order. *)
Fixpoint Sequential_forward (ls : list Layer) (x : Tensor Q) : result (Tensor Q) :=
  match ls with
  | [] => Ok x
  | l :: ls' => y <- Layer_forward l x ;; Sequential_forward ls' y
  end.

(** The interface of [nn.Module]: calling a module runs its [forward]. *)
Class nn_Module (M : Type) : Type := {
  forward : M -> Tensor Q -> result (Tensor Q)
}.

(** Any Python callable on tensors can stand where a module is called. *)
#[export] Instance Callable_Module : nn_Module (Tensor Q -> result (Tensor Q)) :=
  {| forward := fun f x => f x |}.

(** ** class CategoricalDQN (lines 45-74) *)

Record CategoricalDQN : Type := mkCategoricalDQN {
  conv : list Layer;
  fc : list Layer
}.

(** Lines 65-67. *)
Definition _get_conv_out (conv : list Layer) (shape_ : list nat) : result nat :=
  o <- Sequential_forward conv (zeros (1 :: shape_)) ;;
  Ok (numel (shape o)).

(** Lines 49-56 and 59-63: the two [nn.Sequential] stacks.  [init p]
    gives the initial values of parameter tensor number [p] (the
    convolutions' weights and biases 0-5, the linear layers' 6-9). *)
Definition conv_layers (init : nat -> list nat -> Q) (channels : nat) : list Layer :=
  [ LConv2d (Conv2d_new (init 0) (init 1) channels 32 8 4); LReLU;
    LConv2d (Conv2d_new (init 2) (init 3) 32 64 4 2); LReLU;
    LConv2d (Conv2d_new (init 4) (init 5) 64 64 3 1); LReLU ].

Definition fc_layers (init : nat -> list nat -> Q) (conv_out_size n_actions : nat)
  : list Layer :=
  [ LLinear (Linear_new (init 6) (init 7) conv_out_size 512); LReLU;
    LLinear (Linear_new (init 8) (init 9) 512 (n_actions * N_ATOMS)) ].

(** Lines 46-63. *)
Definition CategoricalDQN_init (init : nat -> list nat -> Q)
    (input_shape : list nat) (n_actions : nat) : result CategoricalDQN :=
  match input_shape with
  | [] => Raise IndexError
  | channels :: _ =>
      let conv := conv_layers init channels in
      conv_out_size <- _get_conv_out conv input_shape ;;
      Ok (mkCategoricalDQN conv (fc_layers init conv_out_size n_actions))
  end.

(** Lines 69-74. *)
Definition CategoricalDQN_forward (self : CategoricalDQN) (x : Tensor Q)
  : result (Tensor Q) :=
  batch_size <- size0 x ;;
  let fx := div_scalar x 256 in
  c <- Sequential_forward (conv self) fx ;;
  conv_out <- view [Z.of_nat batch_size; (-1)%Z] c ;;
  fc_out <- Sequential_forward (fc self) conv_out ;;
  view [Z.of_nat batch_size; (-1)%Z; Z.of_nat N_ATOMS] fc_out.

#[export] Instance CategoricalDQN_Module : nn_Module CategoricalDQN :=
  {| forward := CategoricalDQN_forward |}.

(** ** class CategoricalQValues (lines 77-92) *)

Record CategoricalQValues (N : Type) : Type := mkCategoricalQValues {
  cat_net : N;
  supports : Tensor Q
}.

(** Lines 81-85. *)
Definition CategoricalQValues_init {N : Type} (cat_net : N)
  : result (CategoricalQValues N) :=
  s <- make_supports ;;
  Ok (mkCategoricalQValues cat_net s).

Section Softmax.

(** The exponential function of the floating-point library. *)
Variable exp : Q -> Q.

(** Softmax along dimension [d]. *)
Definition softmax_dim (d : nat) (x : Tensor Q) : result (Tensor Q) :=
  if d <? length (shape x) then
    Ok (tabulate (shape x)
          (fun idx => Qdiv (exp (qget x idx))
                           (Qsum_upto (nth d (shape x) 0)
                              (fun k => exp (qget x (set_nth d k idx))))))
  else Raise RuntimeError.

(** [nn.Softmax()] built without a dimension: dimension 0 for inputs
    of 0, 1 or 3 dimensions, dimension 1 otherwise. *)
Definition Softmax_forward (x : Tensor Q) : result (Tensor Q) :=
  match length (shape x) with
  | 0 | 1 | 3 => softmax_dim 0 x
  | _ => softmax_dim 1 x
  end.

(** Lines 88-89: the normalised atom probabilities. *)
Definition CategoricalQValues_probs {N : Type} `{nn_Module N}
    (self : CategoricalQValues N) (x : Tensor Q) : result (Tensor Q) :=
  cat_out <- forward (cat_net self) x ;;
  flat <- view [(-1)%Z; Z.of_nat N_ATOMS] cat_out ;;
  sm <- Softmax_forward flat ;;
  view (map Z.of_nat (shape cat_out)) sm.

(** Lines 87-92. *)
Definition CategoricalQValues_forward {N : Type} `{nn_Module N}
    (self : CategoricalQValues N) (x : Tensor Q) : result (Tensor Q) :=
  probs <- CategoricalQValues_probs self x ;;
  weights <- mul probs (supports self) ;;
  sum_dim 2 weights.

Definition CategoricalQValues_Module (N : Type) `{nn_Module N}
  : nn_Module (CategoricalQValues N) :=
  {| forward := CategoricalQValues_forward |}.

End Softmax.

(** ** unpack_batch (lines 95-108) *)

(** A transition of the experience source: [last_state] is [None] when
    the episode ended on this step. *)
Record Experience : Type := mkExperience {
  state : Tensor Q;
  action : Z;
  reward : Q;
  last_state : option (Tensor Q)
}.

(** [np.array] of a list of scalars: a one-dimensional array. *)
Definition np_array1 {A : Type} (l : list A) : Tensor A := mkTensor [length l] l.

(** [np.array] of a list of arrays of one shape: the arrays stacked
    along a new first axis.  Arrays of different shapes are reported as
    the inhomogeneous-shape [ValueError]. *)
Definition np_array {A : Type} (l : list (Tensor A)) : result (Tensor A) :=
  match l with
  | [] => Ok (mkTensor [0] [])
  | t :: _ =>
      if forallb (fun u => list_eqb (shape u) (shape t)) l then
        Ok (mkTensor (length l :: shape t) (flat_map (@data A) l))
      else Raise ValueError
  end.

Definition is_None {A : Type} (o : option A) : bool :=
  match o with None => true | Some _ => false end.

Definition Lists : Type :=
  (list (Tensor Q) * list Z * list Q * list bool * list (Tensor Q))%type.

(** One pass of the loop body, lines 98-106. *)
Definition unpack_step (acc : Lists) (exp : Experience) : Lists :=
  let '(states, actions, rewards, dones, last_states) := acc in
  let state_ := state exp in
  (states ++ [state_],
   actions ++ [action exp],
   rewards ++ [reward exp],
   dones ++ [is_None (last_state exp)],
   last_states ++ [match last_state exp with
                   | None => state_       (* the result will be masked anyway *)
                   | Some s => s
                   end]).

Definition Arrays : Type :=
  (Tensor Q * Tensor Z * Tensor Q * Tensor bool * Tensor Q)%type.

Definition unpack_batch (batch : list Experience) : result Arrays :=
  let '(states, actions, rewards, dones, last_states) :=
    fold_left unpack_step batch ([], [], [], [], []) in
  states_a <- np_array states ;;
  last_states_a <- np_array last_states ;;
  Ok (states_a, np_array1 actions, np_array1 rewards, np_array1 dones,
      last_states_a).

(** [a[i]]: the [i]-th item of an array along its first axis. *)
Definition item {A : Type} (a : Tensor A) (i : nat) : Tensor A :=
  let s := tl (shape a) in
  mkTensor s (firstn (numel s) (skipn (i * numel s) (data a))).

(** ** calc_loss (lines 111-132)

    The networks are any two modules.  Device placement ([cuda]) and
    the autograd flags do not change the values and are left out. *)
Section CalcLoss.

Context {N T : Type} `{nn_Module N} `{nn_Module T}.

(** Line 126. *)
Definition state_action_values (net : N) (states_v : Tensor Q)
    (actions_v : Tensor Z) : result (Tensor Q) :=
  out <- forward net states_v ;;
  g <- gather 1 out (unsqueeze_last actions_v) ;;
  Ok (squeeze_last g).

(** Line 127. *)
Definition max_next_values (tgt_net : T) (next_states_v : Tensor Q)
  : result (Tensor Q) :=
  out <- forward tgt_net next_states_v ;;
  max_dim 1 out.

(** Lines 127-128. *)
Definition next_state_values (tgt_net : T) (next_states_v : Tensor Q)
    (done_mask : Tensor bool) : result (Tensor Q) :=
  m <- max_next_values tgt_net next_states_v ;;
  masked_fill m done_mask 0.

(** Lines 127-131. *)
Definition expected_state_action_values (tgt_net : T)
    (next_states_v : Tensor Q) (done_mask : Tensor bool) (rewards_v : Tensor Q)
  : result (Tensor Q) :=
  nsv <- next_state_values tgt_net next_states_v done_mask ;;
  add (mul_scalar nsv GAMMA) rewards_v.

Definition calc_loss (batch : list Experience) (net : N) (tgt_net : T)
  : result Q :=
  '(states, actions, rewards, dones, next_states) <- unpack_batch batch ;;
  sav <- state_action_values net states actions ;;
  esav <- expected_state_action_values tgt_net next_states dones rewards ;;
  MSELoss sav esav.

End CalcLoss.

(** ** unpack_batch and calc_loss on arrays in memory

    The two functions work on objects.  A numpy array or torch tensor is
    a view of a buffer; [np.array(x, copy=False)] of an array and
    [torch.from_numpy] hand the same buffer on, [squeeze] is another
    view of it, and line 128 writes into a buffer in place.  This second
    model keeps the buffers in a memory and says, line by line, which
    buffer is read, which is allocated and which is overwritten.  The
    integer and byte arrays ([actions], [dones]) are built from Python
    scalars and only read; they stay values. *)
Module Mem.

Definition Memory : Type := list (list Q).

(** An array or tensor object: the address of its buffer, and its shape. *)
Record Array : Type := mkArray {
  storage : nat;
  dims : list nat
}.

Definition deref (m : Memory) (a : Array) : Tensor Q :=
  mkTensor (dims a) (nth (storage a) m []).

(** Computations that use the memory and may raise. *)
Definition Prog (A : Type) : Type := Memory -> Memory * result A.

Definition mbind {A B : Type} (c : Prog A) (k : A -> Prog B) : Prog B :=
  fun m => match c m with
           | (m', Ok a) => k a m'
           | (m', Raise e) => (m', Raise e)
           end.

Declare Scope prog_scope.
Delimit Scope prog_scope with prog.
Notation "x <- c ;; k" := (mbind c (fun x => k))
  (at level 61, c at next level, right associativity) : prog_scope.
Notation "' pat <- c ;; k" := (mbind c (fun x => match x with pat => k end))
  (at level 61, pat pattern, c at next level, right associativity) : prog_scope.
Local Open Scope prog_scope.

Definition lift {A : Type} (r : result A) : Prog A := fun m => (m, r).

Definition read (a : Array) : Prog (Tensor Q) := fun m => (m, Ok (deref m a)).

Definition read_all (l : list Array) : Prog (list (Tensor Q)) :=
  fun m => (m, Ok (map (deref m) l)).

(** A new buffer, at the first free address. *)
Definition new (t : Tensor Q) : Prog Array :=
  fun m => (m ++ [data t], Ok (mkArray (length m) (shape t))).

(** The elements of [a] overwritten in place. *)
Definition write (a : Array) (d : list Q) : Prog unit :=
  fun m => (set_nth (storage a) d m, Ok tt).

(** A transition whose observations are arrays in memory; the arrays of
    different transitions may be one and the same object. *)
Record Experience : Type := mkExperience {
  state : Array;
  action : Z;
  reward : Q;
  last_state : option Array
}.

Definition Lists : Type :=
  (list Array * list Z * list Q * list bool * list Array)%type.

(** Lines 98-106.  [np.array(exp.state, copy=False)] of an array is the
    array itself. *)
Definition unpack_step (acc : Lists) (exp : Experience) : Lists :=
  let '(states, actions, rewards, dones, last_states) := acc in
  let state_ := state exp in
  (states ++ [state_],
   actions ++ [action exp],
   rewards ++ [reward exp],
   dones ++ [is_None (last_state exp)],
   last_states ++ [match last_state exp with
                   | None => state_
                   | Some s => s
                   end]).

(** [np.array] of a list of arrays: the items are read and stacked
    into a new buffer. *)
Definition np_array (l : list Array) : Prog Array :=
  ts <- read_all l ;;
  t <- lift (np_array ts) ;;
  new t.

Definition Arrays : Type :=
  (Array * Tensor Z * Array * Tensor bool * Array)%type.

(** Lines 96-108; the arrays of the result are built left to right. *)
Definition unpack_batch (batch : list Experience) : Prog Arrays :=
  let '(states, actions, rewards, dones, last_states) :=
    fold_left unpack_step batch ([], [], [], [], []) in
  states_a <- np_array states ;;
  rewards_a <- new (np_array1 rewards) ;;
  last_states_a <- np_array last_states ;;
  lift (Ok (states_a, np_array1 actions, rewards_a, np_array1 dones,
            last_states_a)).

(** [x.squeeze(-1)]: a view, the buffer of [x] under another shape. *)
Definition squeeze_last (a : Array) : Array :=
  mkArray (storage a) (shape (squeeze_last (mkTensor (dims a) (@nil Q)))).

(** [x.gather(d, index)], [x.max(d)[0]], [x * c] and [a + b] return new
    tensors. *)
Definition gather (d : nat) (x : Array) (index : Tensor Z) : Prog Array :=
  t <- read x ;;
  r <- lift (gather d t index) ;;
  new r.

Definition max_dim (d : nat) (x : Array) : Prog Array :=
  t <- read x ;;
  r <- lift (max_dim d t) ;;
  new r.

Definition mul_scalar (x : Array) (c : Q) : Prog Array :=
  t <- read x ;;
  new (mul_scalar t c).

Definition add (a b : Array) : Prog Array :=
  ta <- read a ;;
  tb <- read b ;;
  r <- lift (add ta tb) ;;
  new r.

(** Line 128, [x[mask] = v]: the buffer of [x] is overwritten. *)
Definition masked_fill (x : Array) (mask : Tensor bool) (v : Q) : Prog unit :=
  t <- read x ;;
  r <- lift (masked_fill t mask v) ;;
  write x (data r).

(** [nn.MSELoss()(input, target)]: a new tensor of no dimensions. *)
Definition MSELoss (input target : Array) : Prog Array :=
  ti <- read input ;;
  tt <- read target ;;
  l <- lift (MSELoss ti tt) ;;
  new (mkTensor [] [l]).

Section CalcLoss.

Context {N T : Type} `{nn_Module N} `{nn_Module T}.

(** A module call reads its input and returns a new tensor: the
    [forward] methods of this file (lines 69-74 and 87-92) build their
    results with out-of-place operations, and a module has no state
    besides its parameters. *)
Definition call {M : Type} `{nn_Module M} (net : M) (x : Array) : Prog Array :=
  t <- read x ;;
  out <- lift (forward net t) ;;
  new out.

(** Lines 111-132.  The tensors of lines 114-117 are made by
    [torch.from_numpy] and share the buffers of the arrays. *)
Definition calc_loss (batch : list Experience) (net : N) (tgt_net : T)
  : Prog Array :=
  '(states, actions, rewards, dones, next_states) <- unpack_batch batch ;;
  let states_v := states in
  let next_states_v := next_states in
  let rewards_v := rewards in
  out <- call net states_v ;;
  g <- gather 1 out (unsqueeze_last actions) ;;
  let state_action_values := squeeze_last g in
  out' <- call tgt_net next_states_v ;;
  next_state_values <- max_dim 1 out' ;;
  _ <- masked_fill next_state_values dones 0 ;;
  scaled <- mul_scalar next_state_values GAMMA ;;
  expected_state_action_values <- add scaled rewards_v ;;
  MSELoss state_action_values expected_state_action_values.

End CalcLoss.

End Mem.

(** The transition that the objects of [e] stand for in memory [m]. *)
Definition resolve (m : Mem.Memory) (e : Mem.Experience) : Experience :=
  mkExperience (Mem.deref m (Mem.state e)) (Mem.action e) (Mem.reward e)
               (option_map (Mem.deref m) (Mem.last_state e)).

(** The buffer of [a] exists in [m]. *)
Definition allocated (m : Mem.Memory) (a : Mem.Array) : Prop :=
  Mem.storage a < length m.

Definition in_memory (m : Mem.Memory) (e : Mem.Experience) : Prop :=
  allocated m (Mem.state e) /\
  match Mem.last_state e with
  | Some a => allocated m a
  | None => True
  end.

(** What a run hands back: the tensor behind the returned object, or the
    exception. *)
Definition outcome (r : Mem.Memory * result Mem.Array) : result (Tensor Q) :=
  match snd r with
  | Ok a => Ok (Mem.deref (fst r) a)
  | Raise e => Raise e
  end.

(** ** The training loop (lines 158-199)

    The collaborators (environment, replay buffer, clock, optimizer,
    metrics writer) are outside the script.  Each call to one of them is
    recorded in a log, and what they return during one iteration is
    given by an [Env] record. *)

Inductive Event : Type :=
| populate (n : Z)                              (* buffer.populate(1) *)
| print_progress (frame games : Z) (mean_reward eps speed : Q)
| add_scalar (tag : string) (value : Q) (step : Z)
| print_solved (frame : Z)
| zero_grad                                     (* optimizer.zero_grad() *)
| sample (n : nat)                              (* buffer.sample(BATCH_SIZE) *)
| loss_computation                              (* calc_loss(...) *)
| backward                                      (* loss_v.backward() *)
| optimizer_step                                (* optimizer.step() *)
| sync.                                         (* tgt_net.sync() *)

Record Env : Type := mkEnv {
  new_rewards : list Q;         (* exp_source.pop_total_rewards() *)
  time_171 : Q;                 (* time.time() at line 171 *)
  time_173 : Q;                 (* time.time() at line 173 *)
  buffer_len : Z;               (* len(buffer) at line 188 *)
  sampled : list Experience;    (* buffer.sample(BATCH_SIZE) *)
  stepped : CategoricalDQN      (* the parameters left by optimizer.step() *)
}.

Record LoopState : Type := mkLoopState {
  frame_idx : Z;
  ts_frame : Z;
  ts : Q;
  total_rewards : list Q;
  epsilon : Q;                  (* epsilon_greedy_selector.epsilon *)
  net : CategoricalDQN;
  target_model : CategoricalDQN;
  log : list Event
}.

Inductive Outcome : Type :=
| Next                          (* fall through or [continue] *)
| Break
| Raised (e : error).

Definition emit (evs : list Event) (st : LoopState) : LoopState :=
  mkLoopState (frame_idx st) (ts_frame st) (ts st) (total_rewards st)
    (epsilon st) (net st) (target_model st) (log st ++ evs).

(** [np.mean(l[-100:])]. *)
Definition mean_last_100 (l : list Q) : Q :=
  let tl100 := skipn (length l - 100) l in
  (Qsum tl100 / inject_Z (Z.of_nat (length tl100)))%Q.

(** Lines 168-186: the metrics block. *)
Definition report (env : Env) (st : LoopState) : LoopState * Outcome :=
  match new_rewards env with
  | [] => (st, Next)
  | r0 :: _ =>
      let total := (total_rewards st ++ new_rewards env)%list in
      let st1 := mkLoopState (frame_idx st) (ts_frame st) (ts st) total
                   (epsilon st) (net st) (target_model st) (log st) in
      let dt := (time_171 env - ts st)%Q in
      if Qeq_bool dt 0 then (st1, Raised ZeroDivisionError)
      else
        let speed := (inject_Z (frame_idx st - ts_frame st) / dt)%Q in
        let mean_reward := mean_last_100 total in
        let st2 := mkLoopState (frame_idx st) (frame_idx st) (time_173 env) total
                     (epsilon st) (net st) (target_model st)
                     (log st ++
                      [ print_progress (frame_idx st) (Z.of_nat (length total))
                          mean_reward (epsilon st) speed;
                        add_scalar "epsilon" (epsilon st) (frame_idx st);
                        add_scalar "speed" speed (frame_idx st);
                        add_scalar "reward_100" mean_reward (frame_idx st);
                        add_scalar "reward" r0 (frame_idx st) ]) in
        if negb (Qle_bool mean_reward MEAN_REWARD_BOUND) then
          (emit [print_solved (frame_idx st)] st2, Break)
        else (st2, Next)
  end.

(** Lines 188-198: the gate on the buffer size and the update. *)
Definition train (env : Env) (st : LoopState) : LoopState * Outcome :=
  if (buffer_len env <? REPLAY_START_SIZE)%Z then (st, Next)
  else
    let st1 := emit [zero_grad; sample BATCH_SIZE; loss_computation] st in
    match calc_loss (sampled env) (net st) (target_model st) with
    | Raise e => (st1, Raised e)
    | Ok _ =>
        let st2 := mkLoopState (frame_idx st) (ts_frame st) (ts st)
                     (total_rewards st) (epsilon st) (stepped env)
                     (target_model st)
                     (log st1 ++ [backward; optimizer_step]) in
        if (frame_idx st mod SYNC_TARGET_FRAMES =? 0)%Z then
          (mkLoopState (frame_idx st2) (ts_frame st2) (ts st2)
             (total_rewards st2) (epsilon st2) (net st2) (net st2)
             (log st2 ++ [sync]), Next)
        else (st2, Next)
    end.

(** Lines 164-198: one pass of the [while True] body. *)
Definition iteration (env : Env) (st : LoopState) : LoopState * Outcome :=
  let frame := (frame_idx st + 1)%Z in
  let st1 := mkLoopState frame (ts_frame st) (ts st) (total_rewards st)
               (epsilon_at frame) (net st) (target_model st)
               (log st ++ [populate 1]) in
  match report env st1 with
  | (st2, Next) => train env st2
  | stopped => stopped
  end.

(** The loop over the iterations for which the collaborators' answers
    are given; it stops early on [break] or on an exception. *)
Fixpoint run (envs : list Env) (st : LoopState) : LoopState * Outcome :=
  match envs with
  | [] => (st, Next)
  | env :: rest =>
      match iteration env st with
      | (st', Next) => run rest st'
      | stopped => stopped
      end
  end.

(** Lines 144-160: the state in which the loop is entered; [t0] is the
    clock reading of line 160. *)
Definition initial (net0 : CategoricalDQN) (t0 : Q) : LoopState :=
  mkLoopState 0 0 t0 [] 1 net0 net0 [].

(** Lines 140-160, then the loop. *)
Definition main (init : nat -> list nat -> Q) (observation_shape : list nat)
    (n_actions : nat) (t0 : Q) (envs : list Env)
  : result (LoopState * Outcome) :=
  net0 <- CategoricalDQN_init init observation_shape n_actions ;;
  qvals_net <- CategoricalQValues_init net0 ;;
  Ok (run envs (initial net0 t0)).

(** ** Vocabulary of the statements *)

(** [len(a)] of a numpy array: the size of its first axis. *)
Definition len {A : Type} (a : Tensor A) : nat := hd 0 (shape a).

(** An observation of the environment: an array of the fixed shape [s]. *)
Definition observation (s : list nat) (t : Tensor Q) : Prop :=
  shape t = s /\ wf t.

(** A transition whose observations have the shape [s]. *)
Definition transition (s : list nat) (e : Experience) : Prop :=
  observation s (state e) /\
  match last_state e with
  | Some n => observation s n
  | None => True
  end.

(** The output size of the three convolutions along one spatial axis
    of size [h]: kernels 8, 4, 3 with strides 4, 2, 1. *)
Definition conv_size (h : nat) : nat :=
  (((h - 8) / 4 + 1 - 4) / 2 + 1 - 3) / 1 + 1.

(** The calls that make up a parameter update: lines 191-198. *)
Definition is_update (ev : Event) : bool :=
  match ev with
  | zero_grad | sample _ | loss_computation | backward | optimizer_step | sync => true
  | populate _ | print_progress _ _ _ _ _ | add_scalar _ _ _ | print_solved _ => false
  end.

(** The largest entry of row [i] of an answer with [n_actions] columns,
    as [max(1)] folds it. *)
Definition row_max (out : Tensor Q) (n_actions i : nat) : Q :=
  Qmax_list (qget out [i; 0])
            (map (fun a => qget out [i; a]) (seq 1 (n_actions - 1))).

(** The squared difference between the prediction for transition [e] at
    index [i] and its target, read off the two answers. *)
Definition squared_td_error (out out' : Tensor Q) (n_actions : nat)
    (i : nat) (e : Experience) : Q :=
  let prediction := qget out [i; Z.to_nat (action e)] in
  let next_value := if is_None (last_state e) then 0%Q
                    else row_max out' n_actions i in
  let target := (next_value * GAMMA + reward e)%Q in
  ((prediction - target) * (prediction - target))%Q.

(** The calls that change parameters: lines 194-198. *)
Definition is_step (ev : Event) : bool :=
  match ev with
  | backward | optimizer_step | sync => true
  | _ => false
  end.

Definition is_populate (ev : Event) : bool :=
  match ev with
  | populate _ => true
  | _ => false
  end.

(** ** Sample data for the instances below

    The sizes are those of the Pong run: observations of four stacked
    84 x 84 frames and six actions. *)

(** A positive stand-in for the exponential: 2 to the floor of [v]. *)
Definition exp2 (v : Q) : Q := (2 ^ Qfloor v)%Q.

Definition sample_init : nat -> list nat -> Q := fun _ _ => 0%Q.

(** [CategoricalDQN((4, 84, 84), 6)] with all parameters zero; the
    flattened size is [64 * 7 * 7 = 3136]. *)
Definition sample_net : CategoricalDQN :=
  mkCategoricalDQN (conv_layers sample_init 4) (fc_layers sample_init 3136 6).

Definition black : Tensor Q := zeros [4; 84; 84].
Definition white : Tensor Q := tabulate [4; 84; 84] (fun _ => 255%Q).

(** Two transitions; the second ends its episode. *)
Definition sample_batch : list Experience :=
  [ mkExperience black 1 1 (Some white);
    mkExperience white 0 (-1) None ].

(** A two-row, six-action network given by its table of values. *)
Definition sample_qnet : Tensor Q -> result (Tensor Q) :=
  fun _ => Ok (mkTensor [2; 6] [1; 2; 3; 4; 5; 6; 7; 8; 9; 10; 11; 12]%Q).

(** A value network that scores every atom of every action alike. *)
Definition sample_cat_net : Tensor Q -> result (Tensor Q) :=
  fun _ => Ok (zeros [2; 6; N_ATOMS]).

(** A reducer over [sample_cat_net] that holds a support of [N_ATOMS]
    values, from [Vmin] to [Vmax] in steps of 0.4. *)
Definition sample_reducer : CategoricalQValues (Tensor Q -> result (Tensor Q)) :=
  mkCategoricalQValues sample_cat_net
    (mkTensor [N_ATOMS]
       (map (fun i => (inject_Z Vmin + inject_Z (Z.of_nat i) * (2 # 5))%Q)
            (seq 0 N_ATOMS))).

(** Two observation arrays in memory and two transitions over them.
    The second transition starts in the array in which the first ends,
    and ends its episode. *)
Definition sample_memory : Mem.Memory :=
  [[0; 0; 0; 0]; [255; 255; 255; 255]]%Q.

Definition frame0 : Mem.Array := Mem.mkArray 0 [1; 2; 2].
Definition frame1 : Mem.Array := Mem.mkArray 1 [1; 2; 2].

Definition sample_objects : list Mem.Experience :=
  [ Mem.mkExperience frame0 1 1 (Some frame1);
    Mem.mkExperience frame1 0 (-1) None ].

(** The table that [sample_qnet] answers with. *)
Definition sample_table : Tensor Q :=
  mkTensor [2; 6] [1; 2; 3; 4; 5; 6; 7; 8; 9; 10; 11; 12]%Q.

(** * Properties *)

Lemma Ok_inj {A : Type} (a b : A) : Ok a = Ok b -> a = b.
Proof. congruence. Qed.

(** ** Row-major indexing *)

Lemma length_indices (s : list nat) : length (indices s) = numel s.
Proof.
  induction s as [|d s IH]; simpl; [reflexivity|].
  generalize 0 as a. induction d as [|d IHd]; intros a; simpl; [reflexivity|].
  rewrite length_app, length_map, IH, IHd. reflexivity.
Qed.

Lemma nth_flat_map_seq {A : Type} (g : nat -> list A) (m : nat) (dflt : A) :
  (forall k, length (g k) = m) ->
  forall d a i j, i < d -> j < m ->
    nth (i * m + j) (flat_map g (seq a d)) dflt = nth j (g (a + i)) dflt.
Proof.
  intros Hg d. induction d as [|d IH]; intros a i j Hi Hj; [lia|].
  simpl. destruct i as [|i].
  - simpl. rewrite app_nth1 by (rewrite Hg; lia). now rewrite Nat.add_0_r.
  - rewrite app_nth2 by (rewrite Hg; nia).
    rewrite Hg. replace (S i * m + j - m) with (i * m + j) by lia.
    rewrite IH by lia. f_equal. f_equal. lia.
Qed.

Lemma offset_lt (s idx : list nat) : in_range s idx -> offset s idx < numel s.
Proof.
  revert idx. induction s as [|d s IH]; intros [|i idx]; simpl; try tauto; [lia|].
  intros [Hi Hr]. specialize (IH _ Hr). nia.
Qed.

Lemma nth_indices (s idx dflt : list nat) :
  in_range s idx -> nth (offset s idx) (indices s) dflt = idx.
Proof.
  revert idx. induction s as [|d s IH]; intros [|i idx]; simpl; try tauto.
  intros [Hi Hr].
  rewrite (nth_flat_map_seq (fun i => map (cons i) (indices s)) (m := numel s)).
  - simpl. rewrite (nth_indep _ dflt (i :: dflt)), map_nth, IH; auto.
    rewrite length_map, length_indices. now apply offset_lt.
  - intros k. now rewrite length_map, length_indices.
  - exact Hi.
  - now apply offset_lt.
Qed.

Lemma get_tabulate {A : Type} (dflt : A) (s : list nat) (f : list nat -> A)
    (idx : list nat) :
  in_range s idx -> get dflt (tabulate s f) idx = f idx.
Proof.
  intros Hr. unfold get, tabulate. simpl.
  rewrite (nth_indep _ dflt (f idx)), map_nth, nth_indices; auto.
  rewrite length_map, length_indices. now apply offset_lt.
Qed.

Lemma wf_tabulate {A : Type} (s : list nat) (f : list nat -> A) :
  wf (tabulate s f).
Proof. unfold wf, tabulate. simpl. now rewrite length_map, length_indices. Qed.

(** ** The support vector *)

Lemma make_supports_value :
  make_supports =
  Ok (mkTensor [50]
        (map (fun i => (inject_Z Vmin + inject_Z (Z.of_nat i) *
                        (inject_Z (Vmax - Vmin) / inject_Z (Z.of_nat N_ATOMS - 1)))%Q)
             (seq 0 50))).
Proof. reflexivity. Qed.

(** C3 (what the code builds).  The buffer of line 84 has 50 elements,
    one fewer than [N_ATOMS]: [torch.arange] leaves the end point out.
    The elements are [Vmin + i * 0.4], strictly increasing in equal
    steps of [(Vmax - Vmin) / (N_ATOMS - 1) = 0.4], from [Vmin] up to
    [Vmax - 0.4]. *)
Theorem supports_one_atom_short :
  exists s : Tensor Q,
    make_supports = Ok s /\
    shape s = [N_ATOMS - 1] /\
    length (data s) = 50 /\
    length (data s) <> N_ATOMS /\
    (forall i : nat, i < 50 ->
       (qget s [i] == inject_Z Vmin + inject_Z (Z.of_nat i) * (2 # 5))%Q) /\
    (forall i : nat, S i < 50 ->
       (qget s [i] < qget s [S i])%Q /\
       (qget s [S i] - qget s [i] == 2 # 5)%Q) /\
    (qget s [0%nat] == inject_Z Vmin)%Q /\
    (qget s [49%nat] == inject_Z Vmax - (2 # 5))%Q.
Proof.
  eexists. split; [exact make_supports_value|].
  split; [reflexivity|]. split; [reflexivity|].
  split; [vm_compute; discriminate|].
  split; [|split; [|split; vm_compute; reflexivity]].
  - intros i Hi.
    do 50 (destruct i as [|i]; [vm_compute; reflexivity|]). lia.
  - intros i Hi.
    do 49 (destruct i as [|i]; [split; vm_compute; reflexivity|]). lia.
Qed.

(** ** The exploration schedule *)

Lemma epsilon_at_lower (f : Z) : (EPSILON_FINAL <= epsilon_at f)%Q.
Proof. unfold epsilon_at. apply Q.le_max_l. Qed.

Lemma epsilon_at_antitone (f g : Z) :
  (f <= g)%Z -> (epsilon_at g <= epsilon_at f)%Q.
Proof.
  intros Hfg. unfold epsilon_at.
  apply Q.max_le_compat_l.
  unfold EPSILON_START, EPSILON_DECAY_LAST_FRAME.
  assert (H : (inject_Z f <= inject_Z g)%Q) by (rewrite <- Zle_Qle; exact Hfg).
  change (inject_Z (10 ^ 5)) with (100000 # 1)%Q.
  unfold Qdiv. change (/ (100000 # 1))%Q with (1 # 100000)%Q.
  lra.
Qed.

Lemma report_keeps_schedule (env : Env) (st : LoopState) :
  frame_idx (fst (report env st)) = frame_idx st /\
  epsilon (fst (report env st)) = epsilon st.
Proof.
  unfold report.
  destruct (new_rewards env) as [|r0 rs]; [now split|].
  destruct (Qeq_bool _ 0); [now split|].
  destruct (negb _); now split.
Qed.

Lemma train_keeps_schedule (env : Env) (st : LoopState) :
  frame_idx (fst (train env st)) = frame_idx st /\
  epsilon (fst (train env st)) = epsilon st.
Proof.
  unfold train.
  destruct (buffer_len env <? REPLAY_START_SIZE)%Z; [now split|].
  destruct (calc_loss _ _ _); [|now split].
  destruct (_ =? 0)%Z; now split.
Qed.

Lemma iteration_schedule (env : Env) (st : LoopState) :
  frame_idx (fst (iteration env st)) = (frame_idx st + 1)%Z /\
  epsilon (fst (iteration env st)) = epsilon_at (frame_idx st + 1).
Proof.
  unfold iteration.
  match goal with |- context [report env ?s] =>
    pose proof (report_keeps_schedule env s) as Hr;
    destruct (report env s) as [st2 o] end.
  simpl in Hr. destruct Hr as [Hf He].
  destruct o; simpl; try (split; assumption).
  pose proof (train_keeps_schedule env st2) as [Hf' He'].
  rewrite Hf', He'. split; assumption.
Qed.

(** C9.  After every pass of the loop body the frame counter has grown
    by one and the exploration rate is
    [max(0.02, 1.0 - frame_idx / 100000)] for the new frame index; a
    pass at a later frame never leaves a larger rate than a pass at an
    earlier one, and no pass leaves a rate below 0.02. *)
Theorem epsilon_schedule :
  (forall env st,
     frame_idx (fst (iteration env st)) = (frame_idx st + 1)%Z /\
     epsilon (fst (iteration env st)) =
       Qmax (2 # 100)
            (1 - inject_Z (frame_idx (fst (iteration env st))) / inject_Z 100000)%Q) /\
  (forall env1 st1 env2 st2,
     (frame_idx st1 <= frame_idx st2)%Z ->
     (epsilon (fst (iteration env2 st2)) <= epsilon (fst (iteration env1 st1)))%Q) /\
  (forall env st, ((2 # 100) <= epsilon (fst (iteration env st)))%Q).
Proof.
  split; [|split].
  - intros env st. destruct (iteration_schedule env st) as [Hf He].
    split; [exact Hf|]. rewrite He, Hf. reflexivity.
  - intros env1 st1 env2 st2 Hle.
    destruct (iteration_schedule env1 st1) as [_ ->].
    destruct (iteration_schedule env2 st2) as [_ ->].
    apply epsilon_at_antitone. lia.
  - intros env st. destruct (iteration_schedule env st) as [_ ->].
    apply epsilon_at_lower.
Qed.

(** ** unpack_batch *)

Lemma list_eqb_refl (a : list nat) : list_eqb a a = true.
Proof.
  unfold list_eqb. rewrite Nat.eqb_refl. simpl.
  induction a as [|x a IH]; simpl; [reflexivity|].
  now rewrite Nat.eqb_refl.
Qed.

Lemma unpack_fold (batch : list Experience) :
  forall states actions rewards dones last_states,
    fold_left unpack_step batch (states, actions, rewards, dones, last_states) =
    (states ++ map state batch,
     actions ++ map action batch,
     rewards ++ map reward batch,
     dones ++ map (fun e => is_None (last_state e)) batch,
     last_states ++ map (fun e => match last_state e with
                                  | None => state e
                                  | Some n => n
                                  end) batch).
Proof.
  induction batch as [|e batch IH]; intros; simpl.
  - now rewrite !app_nil_r.
  - rewrite IH, <- !app_assoc. reflexivity.
Qed.

Lemma np_array_same_shape {A : Type} (s : list nat) (l : list (Tensor A)) :
  Forall (fun t => shape t = s) l -> l <> [] ->
  np_array l = Ok (mkTensor (length l :: s) (flat_map (@data A) l)).
Proof.
  intros Hall Hne. destruct l as [|t l]; [congruence|].
  unfold np_array.
  assert (Hs : shape t = s) by (inversion Hall; assumption).
  replace (forallb _ (t :: l)) with true; [now rewrite Hs|].
  symmetry. apply forallb_forall. intros u Hu.
  rewrite Forall_forall in Hall. rewrite (Hall u Hu), Hs. apply list_eqb_refl.
Qed.

Lemma chunk_of_flat_map {A B : Type} (f : B -> list A) (m : nat) (l : list B) :
  Forall (fun u => length (f u) = m) l ->
  forall i t, nth_error l i = Some t ->
    firstn m (skipn (i * m) (flat_map f l)) = f t.
Proof.
  induction 1 as [|u l Hu Hl IH]; intros i t Hi.
  - destruct i; discriminate.
  - destruct i as [|i]; simpl in *.
    + injection Hi as <-. rewrite <- Hu at 1.
      rewrite firstn_app, Nat.sub_diag, firstn_all. simpl. apply app_nil_r.
    + rewrite skipn_app, Hu.
      rewrite skipn_all2 by lia. simpl.
      replace (m + i * m - m) with (i * m) by lia. now apply IH.
Qed.

Lemma item_np_array (s : list nat) (l : list (Tensor Q)) (i : nat) (t : Tensor Q) :
  Forall (observation s) l -> nth_error l i = Some t ->
  item (mkTensor (length l :: s) (flat_map (@data Q) l)) i = t.
Proof.
  intros Hall Hi. unfold item. simpl.
  rewrite chunk_of_flat_map with (m := numel s) (t := t); auto.
  - assert (Ht : observation s t).
    { rewrite Forall_forall in Hall. apply Hall. eapply nth_error_In; eauto. }
    destruct Ht as [Hs _]. destruct t as [sh d]. simpl in *. now subst.
  - eapply Forall_impl; [|exact Hall]. intros u [Hs Hw]. unfold wf in Hw. now rewrite Hw, Hs.
Qed.

Lemma nth_np_array1 {A : Type} (d : A) (l : list A) (i : nat) (x : A) :
  nth_error l i = Some x -> get d (np_array1 l) [i] = x.
Proof.
  intros Hi. unfold get, np_array1. simpl.
  rewrite Nat.mul_1_r, Nat.add_0_r. now apply nth_error_nth.
Qed.

Lemma unpack_batch_value (s : list nat) (batch : list Experience) :
  Forall (transition s) batch ->
  unpack_batch batch =
  Ok (mkTensor (match batch with [] => [0] | _ => length batch :: s end)
        (flat_map (@data Q) (map state batch)),
      np_array1 (map action batch),
      np_array1 (map reward batch),
      np_array1 (map (fun e => is_None (last_state e)) batch),
      mkTensor (match batch with [] => [0] | _ => length batch :: s end)
        (flat_map (@data Q)
           (map (fun e => match last_state e with
                          | None => state e
                          | Some n => n
                          end) batch))).
Proof.
  intros Hall. unfold unpack_batch. rewrite unpack_fold. simpl.
  destruct batch as [|e batch]; [reflexivity|].
  rewrite (np_array_same_shape (s := s)).
  - rewrite (np_array_same_shape (s := s)).
    + simpl. now rewrite !length_map.
    + rewrite Forall_map. eapply Forall_impl; [|exact Hall].
      intros u [[Hs _] Hn]. destruct (last_state u) as [n|]; [apply Hn | exact Hs].
    + discriminate.
  - rewrite Forall_map. eapply Forall_impl; [|exact Hall].
    intros u [[Hs _] _]. exact Hs.
  - discriminate.
Qed.

(** C5.  For a batch of transitions over observations of one shape,
    [unpack_batch] returns five arrays of length [len(batch)]; at every
    index each array holds the field of the transition at that index of
    the batch, and the next-states array holds the transition's own state
    where its [last_state] is [None]. *)
Theorem unpack_batch_aligned (s : list nat) (batch : list Experience) :
  Forall (transition s) batch ->
  exists states actions rewards dones next_states,
    unpack_batch batch = Ok (states, actions, rewards, dones, next_states) /\
    (len states = length batch /\ len actions = length batch /\
     len rewards = length batch /\ len dones = length batch /\
     len next_states = length batch) /\
    forall i e, nth_error batch i = Some e ->
      item states i = state e /\
      get 0%Z actions [i] = action e /\
      qget rewards [i] = reward e /\
      get false dones [i] = is_None (last_state e) /\
      item next_states i = match last_state e with
                           | None => state e
                           | Some n => n
                           end.
Proof.
  intros Hall. do 5 eexists.
  split; [exact (unpack_batch_value Hall)|].
  split.
  - unfold len, np_array1; simpl. rewrite !length_map.
    destruct batch; simpl; repeat split; reflexivity.
  - intros i e Hi.
    assert (Hlen : batch <> []) by (destruct batch; [destruct i|]; discriminate).
    destruct batch as [|e0 batch']; [congruence|].
    set (b := e0 :: batch') in *.
    replace (length b) with (length (map state b)) at 1 by apply length_map.
    split; [|split; [|split; [|split]]].
    + apply (item_np_array (s := s)).
      * rewrite Forall_map. eapply Forall_impl; [|exact Hall]. now intros u [Hu _].
      * now rewrite nth_error_map, Hi.
    + apply nth_np_array1. now rewrite nth_error_map, Hi.
    + apply nth_np_array1. now rewrite nth_error_map, Hi.
    + apply nth_np_array1. now rewrite nth_error_map, Hi.
    + replace (length b) with
        (length (map (fun e => match last_state e with
                               | None => state e | Some n => n end) b))
        by apply length_map.
      apply (item_np_array (s := s)).
      * rewrite Forall_map. eapply Forall_impl; [|exact Hall].
        intros u [Hu Hn]. destruct (last_state u); assumption.
      * now rewrite nth_error_map, Hi.
Qed.

(** ** Shapes through the value network *)

Lemma Conv2d_forward_ok (m : Conv2d) (x : Tensor Q) (n c h w oc kh kw : nat) :
  shape x = [n; c; h; w] -> shape (weight m) = [oc; c; kh; kw] ->
  kh <= h -> kw <= w -> 1 <= stride m -> 1 <= c ->
  Conv2d_forward m x =
  Ok (tabulate [n; oc; (h - kh) / stride m + 1; (w - kw) / stride m + 1]
        (Conv2d_at m x c kh kw)).
Proof.
  intros Hx Hw Hh Hww Hs Hc. unfold Conv2d_forward. rewrite Hx, Hw.
  rewrite (proj2 (Nat.leb_le 1 c) Hc), Nat.eqb_refl.
  rewrite (proj2 (Nat.leb_le kh h) Hh), (proj2 (Nat.leb_le kw w) Hww),
          (proj2 (Nat.leb_le 1 (stride m)) Hs).
  reflexivity.
Qed.

Lemma Conv2d_forward_small (m : Conv2d) (x : Tensor Q) (n c h w oc ic kh kw : nat) :
  shape x = [n; c; h; w] -> shape (weight m) = [oc; ic; kh; kw] ->
  h < kh \/ w < kw ->
  Conv2d_forward m x = Raise RuntimeError.
Proof.
  intros Hx Hw Hsmall. unfold Conv2d_forward. rewrite Hx, Hw.
  destruct Hsmall as [Hlt | Hlt].
  - rewrite (proj2 (Nat.leb_gt kh h) Hlt). now rewrite andb_false_r.
  - rewrite (proj2 (Nat.leb_gt kw w) Hlt). now rewrite !andb_false_r.
Qed.

Lemma Conv2d_forward_no_channels (m : Conv2d) (x : Tensor Q)
    (n c h w oc kh kw : nat) :
  shape x = [n; c; h; w] -> shape (weight m) = [oc; 0; kh; kw] ->
  Conv2d_forward m x = Raise RuntimeError.
Proof.
  intros Hx Hw. unfold Conv2d_forward. now rewrite Hx, Hw.
Qed.

Lemma Linear_forward_ok (m : Linear) (x : Tensor Q) (b in_f out_f : nat) :
  shape x = [b; in_f] -> shape (lin_weight m) = [out_f; in_f] ->
  Linear_forward m x = Ok (tabulate [b; out_f] (Linear_at m x in_f)).
Proof.
  intros Hx Hw. unfold Linear_forward. rewrite Hx, Hw. simpl.
  now rewrite Nat.eqb_refl.
Qed.

Lemma Z_of_nat_not_m1 (n : nat) : Z.eqb (Z.of_nat n) (-1) = false.
Proof. apply Z.eqb_neq. lia. Qed.

Lemma Z_of_nat_not_lt_m1 (n : nat) : Z.ltb (Z.of_nat n) (-1) = false.
Proof. apply Z.ltb_ge. lia. Qed.

(** [x.view(b, -1)] on [b * k] elements. *)
Lemma view_rows {A : Type} (t : Tensor A) (b k : nat) :
  1 <= b -> numel (shape t) = b * k ->
  view [Z.of_nat b; (-1)%Z] t = Ok (mkTensor [b; k] (data t)).
Proof.
  intros Hb Hn. unfold view.
  assert (Hf : filter (fun d => negb (Z.eqb d (-1))) [Z.of_nat b; (-1)%Z]
               = [Z.of_nat b]).
  { simpl. now rewrite Z_of_nat_not_m1. }
  assert (He : existsb (fun d => Z.ltb d (-1)) [Z.of_nat b; (-1)%Z] = false).
  { simpl. now rewrite Z_of_nat_not_lt_m1. }
  rewrite Hf, He. simpl length. simpl Nat.sub. cbv iota.
  simpl map. rewrite Z_of_nat_not_m1. simpl numel at 1 3 4.
  rewrite !Nat2Z.id, !Nat.mul_1_r, Hn.
  destruct (Nat.eqb_spec b 0) as [->|_]; [lia|].
  rewrite (Nat.mul_comm b k), Nat.Div0.mod_mul, Nat.div_mul by lia.
  reflexivity.
Qed.

(** [x.view(b, -1, c)] on [b * (k * c)] elements. *)
Lemma view_slices {A : Type} (t : Tensor A) (b k c : nat) :
  1 <= b -> 1 <= c -> numel (shape t) = b * (k * c) ->
  view [Z.of_nat b; (-1)%Z; Z.of_nat c] t = Ok (mkTensor [b; k; c] (data t)).
Proof.
  intros Hb Hc Hn. unfold view.
  assert (Hf : filter (fun d => negb (Z.eqb d (-1)))
                 [Z.of_nat b; (-1)%Z; Z.of_nat c] = [Z.of_nat b; Z.of_nat c]).
  { simpl. now rewrite !Z_of_nat_not_m1. }
  assert (He : existsb (fun d => Z.ltb d (-1))
                 [Z.of_nat b; (-1)%Z; Z.of_nat c] = false).
  { simpl. now rewrite !Z_of_nat_not_lt_m1. }
  rewrite Hf, He. simpl length. simpl Nat.sub. cbv iota.
  simpl map. rewrite !Z_of_nat_not_m1. simpl numel at 1 3 4.
  rewrite !Nat2Z.id, !Nat.mul_1_r, Hn.
  destruct (Nat.eqb_spec (b * c) 0) as [H0|_]; [nia|].
  replace (b * (k * c)) with (k * (b * c)) by lia.
  rewrite Nat.Div0.mod_mul, Nat.div_mul by nia.
  reflexivity.
Qed.

Lemma conv_size_ge (h : nat) : 36 <= h -> 8 <= (h - 8) / 4 + 1 /\ 3 <= ((h - 8) / 4 + 1 - 4) / 2 + 1.
Proof.
  intros Hh.
  assert (H1 : 7 <= (h - 8) / 4) by (apply Nat.div_le_lower_bound; lia).
  split; [lia|].
  assert (H2 : 2 <= ((h - 8) / 4 + 1 - 4) / 2) by (apply Nat.div_le_lower_bound; lia).
  lia.
Qed.

Lemma conv_layers_forward (init : nat -> list nat -> Q) (x : Tensor Q)
    (n c h w : nat) :
  shape x = [n; c; h; w] -> 36 <= h -> 36 <= w -> 1 <= c ->
  exists o, Sequential_forward (conv_layers init c) x = Ok o /\
            shape o = [n; 64; conv_size h; conv_size w].
Proof.
  intros Hx Hh Hw Hc.
  destruct (conv_size_ge Hh) as [Hh1 Hh2]. destruct (conv_size_ge Hw) as [Hw1 Hw2].
  unfold conv_layers.
  cbn [Sequential_forward Layer_forward bind].
  erewrite Conv2d_forward_ok with (oc := 32) (kh := 8) (kw := 8);
    [ | exact Hx | reflexivity | lia | lia | simpl; lia | lia ].
  cbn [bind stride Conv2d_new].
  erewrite Conv2d_forward_ok with (oc := 64) (kh := 4) (kw := 4);
    [ | reflexivity | reflexivity | lia | lia | simpl; lia | lia ].
  cbn [bind stride Conv2d_new].
  erewrite Conv2d_forward_ok with (oc := 64) (kh := 3) (kw := 3);
    [ | reflexivity | reflexivity | lia | lia | simpl; lia | lia ].
  cbn [bind]. eexists. split; reflexivity.
Qed.

Lemma conv_size_lt (h : nat) :
  h < 36 -> 8 <= h -> 4 <= (h - 8) / 4 + 1 -> ((h - 8) / 4 + 1 - 4) / 2 + 1 < 3.
Proof.
  intros Hh H8 H4.
  assert (H1 : (h - 8) / 4 < 7) by (apply Nat.Div0.div_lt_upper_bound; lia).
  assert (H2 : ((h - 8) / 4 + 1 - 4) / 2 < 2)
    by (apply Nat.Div0.div_lt_upper_bound; lia).
  lia.
Qed.

Lemma conv_layers_small (init : nat -> list nat -> Q) (x : Tensor Q)
    (n c h w : nat) :
  shape x = [n; c; h; w] -> h < 36 \/ w < 36 ->
  Sequential_forward (conv_layers init c) x = Raise RuntimeError.
Proof.
  intros Hx Hsmall. unfold conv_layers.
  cbn [Sequential_forward Layer_forward bind].
  destruct (Nat.eq_dec c 0) as [Hc | Hc];
    [subst c; erewrite Conv2d_forward_no_channels with (kh := 8) (kw := 8);
       [reflexivity | exact Hx | reflexivity]|].
  destruct (Nat.lt_ge_cases h 8) as [Hh8 | Hh8];
    [erewrite Conv2d_forward_small with (kh := 8) (kw := 8);
       [reflexivity | exact Hx | reflexivity | now left]|].
  destruct (Nat.lt_ge_cases w 8) as [Hw8 | Hw8];
    [erewrite Conv2d_forward_small with (kh := 8) (kw := 8);
       [reflexivity | exact Hx | reflexivity | now right]|].
  erewrite Conv2d_forward_ok with (oc := 32) (kh := 8) (kw := 8);
    [ | exact Hx | reflexivity | lia | lia | simpl; lia | lia ].
  cbn [bind stride Conv2d_new].
  destruct (Nat.lt_ge_cases ((h - 8) / 4 + 1) 4) as [Hh4 | Hh4];
    [erewrite Conv2d_forward_small with (kh := 4) (kw := 4);
       [reflexivity | reflexivity | reflexivity | now left]|].
  destruct (Nat.lt_ge_cases ((w - 8) / 4 + 1) 4) as [Hw4 | Hw4];
    [erewrite Conv2d_forward_small with (kh := 4) (kw := 4);
       [reflexivity | reflexivity | reflexivity | now right]|].
  erewrite Conv2d_forward_ok with (oc := 64) (kh := 4) (kw := 4);
    [ | reflexivity | reflexivity | lia | lia | simpl; lia | lia ].
  cbn [bind stride Conv2d_new].
  erewrite Conv2d_forward_small with (kh := 3) (kw := 3);
    [reflexivity | reflexivity | reflexivity | ].
  destruct Hsmall as [Hs | Hs]; [left | right]; now apply conv_size_lt.
Qed.

Lemma get_conv_out_ok (init : nat -> list nat -> Q) (c h w : nat) :
  36 <= h -> 36 <= w -> 1 <= c ->
  _get_conv_out (conv_layers init c) [c; h; w] =
  Ok (64 * (conv_size h * conv_size w)).
Proof.
  intros Hh Hw Hc. unfold _get_conv_out.
  destruct (@conv_layers_forward init (zeros [1; c; h; w]) 1 c h w eq_refl Hh Hw Hc)
    as [o [Ho Hs]].
  rewrite Ho. cbn [bind]. rewrite Hs. f_equal.
  cbn [numel fold_right]. lia.
Qed.

(** The construction succeeds on inputs of at least 36 x 36 with at
    least one channel. *)
Lemma CategoricalDQN_init_ok (init : nat -> list nat -> Q) (c h w n_actions : nat) :
  36 <= h -> 36 <= w -> 1 <= c ->
  CategoricalDQN_init init [c; h; w] n_actions =
  Ok (mkCategoricalDQN (conv_layers init c)
        (fc_layers init (64 * (conv_size h * conv_size w)) n_actions)).
Proof.
  intros Hh Hw Hc. unfold CategoricalDQN_init.
  now rewrite get_conv_out_ok.
Qed.

Lemma conv_layers_no_channels (init : nat -> list nat -> Q) (x : Tensor Q)
    (n h w : nat) :
  shape x = [n; 0; h; w] ->
  Sequential_forward (conv_layers init 0) x = Raise RuntimeError.
Proof.
  intros Hx. unfold conv_layers.
  cbn [Sequential_forward Layer_forward bind].
  erewrite Conv2d_forward_no_channels with (kh := 8) (kw := 8);
    [reflexivity | exact Hx | reflexivity].
Qed.

(** No network is built for observations without channels. *)
Lemma CategoricalDQN_init_channels (init : nat -> list nat -> Q)
    (c h w n_actions : nat) (net : CategoricalDQN) :
  CategoricalDQN_init init [c; h; w] n_actions = Ok net -> 1 <= c.
Proof.
  unfold CategoricalDQN_init, _get_conv_out. intros Hinit.
  destruct c as [|c]; [|lia].
  rewrite (@conv_layers_no_channels init (zeros [1; 0; h; w]) 1 h w eq_refl)
    in Hinit.
  discriminate.
Qed.

Lemma Conv2d_forward_rank (m : Conv2d) (x : Tensor Q) :
  length (shape x) <> 4 -> Conv2d_forward m x = Raise RuntimeError.
Proof.
  intros Hr. unfold Conv2d_forward.
  destruct (shape x) as [|n [|c [|h [|w [|? ?]]]]]; simpl in *; try reflexivity.
  congruence.
Qed.

(** It succeeds on no other input shape. *)
Lemma CategoricalDQN_init_inv (init : nat -> list nat -> Q)
    (input_shape : list nat) (n_actions : nat) (net : CategoricalDQN) :
  CategoricalDQN_init init input_shape n_actions = Ok net ->
  exists c h w, input_shape = [c; h; w] /\ 36 <= h /\ 36 <= w.
Proof.
  unfold CategoricalDQN_init.
  destruct input_shape as [|c rest]; [discriminate|].
  unfold _get_conv_out.
  destruct rest as [|h [|w [|z rest]]].
  1, 2, 4: unfold conv_layers; cbn [Sequential_forward Layer_forward bind];
    rewrite Conv2d_forward_rank by (cbn [zeros tabulate shape length]; lia);
    discriminate.
  intros Hinit. exists c, h, w. split; [reflexivity|].
  destruct (Nat.lt_ge_cases h 36) as [Hh | Hh];
    [rewrite (@conv_layers_small init (zeros [1; c; h; w]) 1 c h w eq_refl) in Hinit
       by (now left); discriminate|].
  destruct (Nat.lt_ge_cases w 36) as [Hw | Hw];
    [rewrite (@conv_layers_small init (zeros [1; c; h; w]) 1 c h w eq_refl) in Hinit
       by (now right); discriminate|].
  split; assumption.
Qed.

Lemma fc_layers_forward (init : nat -> list nat -> Q) (x : Tensor Q)
    (b k n_actions : nat) :
  shape x = [b; k] ->
  exists o, Sequential_forward (fc_layers init k n_actions) x = Ok o /\
            shape o = [b; n_actions * N_ATOMS].
Proof.
  intros Hx. unfold fc_layers.
  cbn [Sequential_forward Layer_forward bind].
  erewrite Linear_forward_ok with (out_f := 512); [ | exact Hx | reflexivity ].
  cbn [bind].
  erewrite Linear_forward_ok with (out_f := n_actions * N_ATOMS);
    [ | reflexivity | reflexivity ].
  eexists. split; reflexivity.
Qed.

(** The forward pass of the network built for the input shape
    [c; h; w]. *)
Lemma built_forward (init : nat -> list nat -> Q) (c h w n_actions : nat)
    (x : Tensor Q) (batch_size : nat) :
  36 <= h -> 36 <= w -> 1 <= c ->
  shape x = [batch_size; c; h; w] -> 1 <= batch_size ->
  exists out,
    forward (mkCategoricalDQN (conv_layers init c)
               (fc_layers init (64 * (conv_size h * conv_size w)) n_actions)) x
    = Ok out /\
    shape out = [batch_size; n_actions; N_ATOMS].
Proof.
  intros Hh Hw Hc Hx Hb.
  cbn [forward CategoricalDQN_Module]. unfold CategoricalDQN_forward.
  unfold size0. rewrite Hx. cbn [bind conv fc].
  destruct (@conv_layers_forward init (div_scalar x 256) batch_size c h w)
    as [o1 [Ho1 Hs1]]; auto.
  rewrite Ho1. cbn [bind].
  rewrite view_rows with (k := 64 * (conv_size h * conv_size w));
    [ | exact Hb | rewrite Hs1; cbn [numel fold_right]; lia ].
  cbn [bind].
  destruct (@fc_layers_forward init
              (mkTensor [batch_size; 64 * (conv_size h * conv_size w)] (data o1))
              batch_size _ n_actions eq_refl) as [o2 [Ho2 Hs2]].
  rewrite Ho2. cbn [bind].
  rewrite view_slices with (k := n_actions);
    [ | exact Hb | unfold N_ATOMS; lia | rewrite Hs2; cbn [numel fold_right]; lia ].
  eexists. split; reflexivity.
Qed.


(** ** The call of line 193: [calc_loss] on the raw value network *)

Lemma bind_Ok_inv {A B : Type} (c : result A) (k : A -> result B) (b : B) :
  bind c k = Ok b -> exists a, c = Ok a /\ k a = Ok b.
Proof. destruct c as [a|e]; simpl; [eauto | discriminate]. Qed.

Lemma view_rank {A : Type} (dims : list Z) (t o : Tensor A) :
  view dims t = Ok o -> length (shape o) = length dims.
Proof.
  unfold view. destruct (existsb _ dims); [discriminate|].
  destruct (length dims - length _) as [|[|k]]; try discriminate.
  - destruct (_ =? _); [|discriminate].
    intros H. apply Ok_inj in H. subst o. simpl. apply length_map.
  - destruct (_ =? 0); [discriminate|]. destruct (_ =? 0); [|discriminate].
    intros H. apply Ok_inj in H. subst o. simpl. apply length_map.
Qed.

(** What [x.view(b, -1, c)] returns, when it returns. *)
Lemma view_slices_inv {A : Type} (t o : Tensor A) (b c : nat) :
  view [Z.of_nat b; (-1)%Z; Z.of_nat c] t = Ok o ->
  shape o = [b; numel (shape t) / (b * c); c] /\ data o = data t.
Proof.
  unfold view.
  assert (Hf : filter (fun d => negb (Z.eqb d (-1)))
                 [Z.of_nat b; (-1)%Z; Z.of_nat c] = [Z.of_nat b; Z.of_nat c]).
  { simpl. now rewrite !Z_of_nat_not_m1. }
  assert (He : existsb (fun d => Z.ltb d (-1))
                 [Z.of_nat b; (-1)%Z; Z.of_nat c] = false).
  { simpl. now rewrite !Z_of_nat_not_lt_m1. }
  rewrite Hf, He. simpl length. simpl Nat.sub. cbv iota.
  simpl map. rewrite !Z_of_nat_not_m1. simpl numel at 1 3 4.
  rewrite !Nat2Z.id, !Nat.mul_1_r.
  destruct (_ =? 0); [discriminate|]. destruct (_ =? 0); [|discriminate].
  intros H. apply Ok_inj in H. subst o. now split.
Qed.

(** The raw network's output always has three dimensions, the first the
    batch size and the last [N_ATOMS]. *)
Lemma CategoricalDQN_forward_inv (net : CategoricalDQN) (x out : Tensor Q) :
  forward net x = Ok out ->
  exists k, shape out = [len x; k; N_ATOMS].
Proof.
  cbn [forward CategoricalDQN_Module]. unfold CategoricalDQN_forward. intros H.
  apply bind_Ok_inv in H. destruct H as [b [Hb H]].
  apply bind_Ok_inv in H. destruct H as [c [_ H]].
  apply bind_Ok_inv in H. destruct H as [co [_ H]].
  apply bind_Ok_inv in H. destruct H as [fo [_ H]].
  apply view_slices_inv in H. destruct H as [Hs _].
  unfold size0 in Hb. unfold len.
  destruct (shape x) as [|n s]; [discriminate|]. apply Ok_inj in Hb. subst b.
  eexists. exact Hs.
Qed.

Lemma gather_rank (d : nat) (x : Tensor Q) (index : Tensor Z) :
  length (shape index) <> length (shape x) ->
  gather d x index = Raise RuntimeError.
Proof.
  intros Hr. unfold gather.
  now rewrite (proj2 (Nat.eqb_neq _ _) Hr).
Qed.

Lemma unpack_batch_inv (batch : list Experience) (a : Arrays) :
  unpack_batch batch = Ok a ->
  exists states next_states,
    a = (states, np_array1 (map action batch), np_array1 (map reward batch),
         np_array1 (map (fun e => is_None (last_state e)) batch), next_states).
Proof.
  unfold unpack_batch. rewrite unpack_fold. simpl. intros H.
  apply bind_Ok_inv in H. destruct H as [s [_ H]].
  apply bind_Ok_inv in H. destruct H as [n [_ H]].
  apply Ok_inj in H. subst a. eauto.
Qed.

Lemma raw_state_action_values_raise (net : CategoricalDQN) (states_v : Tensor Q)
    (actions : list Z) (out : Tensor Q) :
  forward net states_v = Ok out ->
  state_action_values net states_v (np_array1 actions) = Raise RuntimeError.
Proof.
  intros Hf. unfold state_action_values. rewrite Hf. cbn [bind].
  destruct (CategoricalDQN_forward_inv _ _ Hf) as [k Hs].
  rewrite gather_rank; [reflexivity|].
  rewrite Hs. simpl. lia.
Qed.

(** On a network that the constructor returned and a non-empty batch of
    transitions of its input shape, the exception is the one of the
    [gather] of line 126. *)
Lemma calc_loss_raises_at_gather (init : nat -> list nat -> Q)
    (input_shape : list nat) (n_actions : nat) (net tgt_net : CategoricalDQN)
    (batch : list Experience) :
  CategoricalDQN_init init input_shape n_actions = Ok net ->
  Forall (transition input_shape) batch -> batch <> [] ->
  calc_loss batch net tgt_net = Raise RuntimeError.
Proof.
  intros Hinit Hall Hne. unfold calc_loss.
  rewrite (unpack_batch_value Hall). cbn [bind].
  destruct batch as [|e batch]; [congruence|].
  destruct (CategoricalDQN_init_inv _ _ _ Hinit) as [c [h [w [-> [Hh Hw]]]]].
  pose proof (@CategoricalDQN_init_channels _ _ _ _ _ _ Hinit) as Hc.
  rewrite CategoricalDQN_init_ok in Hinit by assumption.
  apply Ok_inj in Hinit. subst net.
  destruct (@built_forward init c h w n_actions
              (mkTensor (length (e :: batch) :: [c; h; w])
                 (flat_map (@data Q) (map state (e :: batch))))
              (length (e :: batch)) Hh Hw Hc eq_refl) as [out [Hf _]];
    [simpl; lia|].
  now rewrite (raw_state_action_values_raise _ _ _ Hf).
Qed.

(** C1 (what the code does).  Line 193 passes the raw value networks to
    [calc_loss], not the wrapper that reduces them to expected values.
    The raw output has three dimensions, the index built from the
    actions has two, and the [gather] of line 126 is refused: for no
    batch and no parameters does the call return a loss. *)
Theorem calc_loss_on_raw_networks_raises (batch : list Experience)
    (net tgt_net : CategoricalDQN) :
  exists e, calc_loss batch net tgt_net = Raise e.
Proof.
  unfold calc_loss.
  destruct (unpack_batch batch) as [a|e] eqn:Hu; [|now exists e].
  destruct (unpack_batch_inv _ Hu) as [states [next_states ->]].
  cbn [bind].
  destruct (forward net states) as [out|e] eqn:Hf.
  - rewrite (raw_state_action_values_raise _ _ _ Hf). now exists RuntimeError.
  - unfold state_action_values. rewrite Hf. now exists e.
Qed.

(** The call of line 193 on a batch of [BATCH_SIZE = 32] transitions
    and the network of the Pong run. *)
Example calc_loss_line_193 :
  calc_loss (repeat (mkExperience black 1 1 (Some white)) 31 ++
             [mkExperience white 0 (-1) None])
            sample_net sample_net = Raise RuntimeError.
Proof. reflexivity. Qed.

Lemma max_dim_1_ok (x : Tensor Q) (s0 : nat) (k : nat) (rest : list nat) :
  shape x = s0 :: S k :: rest ->
  max_dim 1 x =
  Ok (tabulate (s0 :: rest)
        (fun idx => Qmax_list (qget x (insert_nth 1 0 idx))
                      (map (fun a => qget x (insert_nth 1 a idx)) (seq 1 k)))).
Proof. intros Hs. unfold max_dim. rewrite Hs. reflexivity. Qed.

(** C2 (what the code does).  The target network of line 193 is the raw
    value network as well.  On it the maximum of line 127 runs over the
    action axis of the raw scores, one atom at a time: the result has
    the shape [batch_size; N_ATOMS] and holds, for transition [i] and
    atom [k], the largest raw score of atom [k] among the actions.  No
    softmax and no support enter, and there is no single value per
    transition. *)
Theorem raw_target_next_values (init : nat -> list nat -> Q)
    (input_shape : list nat) (n_actions : nat) (tgt_net : CategoricalDQN)
    (x : Tensor Q) (batch_size : nat) :
  CategoricalDQN_init init input_shape n_actions = Ok tgt_net ->
  shape x = batch_size :: input_shape ->
  1 <= batch_size -> 1 <= n_actions ->
  exists out m,
    forward tgt_net x = Ok out /\
    shape out = [batch_size; n_actions; N_ATOMS] /\
    max_next_values tgt_net x = Ok m /\
    shape m = [batch_size; N_ATOMS] /\
    forall i k, i < batch_size -> k < N_ATOMS ->
      qget m [i; k] =
      Qmax_list (qget out [i; 0; k])
                (map (fun a => qget out [i; a; k]) (seq 1 (n_actions - 1))).
Proof.
  intros Hinit Hx Hb Hn.
  destruct (CategoricalDQN_init_inv _ _ _ Hinit) as [c [h [w [-> [Hh Hw]]]]].
  pose proof (@CategoricalDQN_init_channels _ _ _ _ _ _ Hinit) as Hc.
  rewrite CategoricalDQN_init_ok in Hinit by assumption.
  apply Ok_inj in Hinit. subst tgt_net.
  destruct (@built_forward init c h w n_actions x batch_size Hh Hw Hc Hx Hb)
    as [out [Hf Hs]].
  destruct n_actions as [|n]; [lia|].
  pose proof (max_dim_1_ok out Hs) as Hm.
  eexists out, _. split; [exact Hf|]. split; [exact Hs|].
  unfold max_next_values. rewrite Hf. cbn [bind].
  split; [exact Hm|]. split; [reflexivity|].
  intros i k Hi Hk. unfold qget at 1.
  rewrite get_tabulate by (simpl; lia).
  replace (S n - 1) with n by lia. reflexivity.
Qed.

Lemma sample_net_built :
  CategoricalDQN_init sample_init [4; 84; 84] 6 = Ok sample_net.
Proof. reflexivity. Qed.

Lemma raw_target_next_values_example :
  exists out m,
    forward sample_net (zeros [32; 4; 84; 84]) = Ok out /\
    shape out = [32; 6; N_ATOMS] /\
    max_next_values sample_net (zeros [32; 4; 84; 84]) = Ok m /\
    shape m = [32; N_ATOMS] /\
    forall i k, i < 32 -> k < N_ATOMS ->
      qget m [i; k] =
      Qmax_list (qget out [i; 0; k])
                (map (fun a => qget out [i; a; k]) (seq 1 (6 - 1))).
Proof.
  apply (@raw_target_next_values sample_init [4; 84; 84] 6 sample_net
           (zeros [32; 4; 84; 84]) 32 sample_net_built eq_refl); lia.
Defined.


Lemma sample_batch_transitions : Forall (transition [4; 84; 84]) sample_batch.
Proof.
  assert (Hb : observation [4; 84; 84] black)
    by (split; [reflexivity | apply wf_tabulate]).
  assert (Hw : observation [4; 84; 84] white)
    by (split; [reflexivity | apply wf_tabulate]).
  repeat constructor; assumption.
Qed.

Lemma unpack_batch_aligned_example :
  exists states actions rewards dones next_states,
    unpack_batch sample_batch = Ok (states, actions, rewards, dones, next_states) /\
    (len states = length sample_batch /\ len actions = length sample_batch /\
     len rewards = length sample_batch /\ len dones = length sample_batch /\
     len next_states = length sample_batch) /\
    forall i e, nth_error sample_batch i = Some e ->
      item states i = state e /\
      get 0%Z actions [i] = action e /\
      qget rewards [i] = reward e /\
      get false dones [i] = is_None (last_state e) /\
      item next_states i = match last_state e with
                           | None => state e
                           | Some n => n
                           end.
Proof.
  exact (unpack_batch_aligned sample_batch_transitions).
Defined.

(** ** The training target *)

Lemma broadcast_same (n : nat) : broadcast_shapes [n] [n] = Ok [n].
Proof.
  unfold broadcast_shapes. simpl. now rewrite Nat.eqb_refl.
Qed.

Lemma bidx_1d (n i : nat) : i < n -> bidx [n] [i] = [i].
Proof.
  intros Hi. unfold bidx. simpl.
  destruct (Nat.eqb_spec n 1) as [->|_]; [|reflexivity].
  f_equal. lia.
Qed.

Lemma qget_1d (n : nat) (l : list Q) (i : nat) :
  qget (mkTensor [n] l) [i] = nth i l 0%Q.
Proof.
  unfold qget, get. simpl. now rewrite Nat.mul_1_r, Nat.add_0_r.
Qed.

Lemma nth_masked (xs : list Q) (ms : list bool) (v : Q) (i : nat) :
  length xs = length ms -> nth_error ms i = Some true ->
  nth i (map (fun '(e, m) => if (m : bool) then v else e) (combine xs ms)) 0%Q = v.
Proof.
  revert ms i. induction xs as [|x xs IH]; intros [|m ms] [|i]; simpl;
    try discriminate.
  - intros _ H. now injection H as ->.
  - intros Hl H. apply IH; [lia | exact H].
Qed.

(** C4.  Whatever module stands for the target network, as long as it
    answers the batch with one value per transition and action: the
    target of a transition whose [last_state] is [None] (its done flag
    is set) is its reward.  The masked value is 0, so
    [0 * GAMMA + reward] remains; the network's output for that row does
    not enter, and a change of the reward changes the target by the same
    amount. *)
Theorem terminal_target_is_reward {T : Type} `{nn_Module T} (tgt_net : T)
    (batch : list Experience)
    (states : Tensor Q) (actions : Tensor Z) (rewards : Tensor Q)
    (dones : Tensor bool) (next_states out : Tensor Q)
    (n_actions i : nat) (e : Experience) :
  unpack_batch batch = Ok (states, actions, rewards, dones, next_states) ->
  forward tgt_net next_states = Ok out ->
  shape out = [length batch; n_actions] ->
  1 <= n_actions ->
  nth_error batch i = Some e ->
  last_state e = None ->
  exists target,
    expected_state_action_values tgt_net next_states dones rewards = Ok target /\
    shape target = [length batch] /\
    (qget target [i] == reward e)%Q.
Proof.
  intros Hu Hf Hs Hn Hi Hlast.
  destruct (unpack_batch_inv _ Hu) as [st [ns Ha]].
  injection Ha as -> -> -> -> ->.
  assert (Hib : i < length batch) by (apply nth_error_Some; congruence).
  destruct n_actions as [|n]; [lia|].
  unfold expected_state_action_values, next_state_values, max_next_values.
  rewrite Hf. cbn [bind].
  rewrite (max_dim_1_ok out Hs). cbn [bind].
  unfold masked_fill, np_array1. cbn [shape data tabulate].
  rewrite length_map, list_eqb_refl. cbn [bind].
  unfold add, binop, mul_scalar. cbn [shape data].
  rewrite length_map, broadcast_same. cbn [bind].
  eexists. split; [reflexivity|]. split; [reflexivity|].
  unfold qget at 1. rewrite get_tabulate by (simpl; lia).
  rewrite bidx_1d by exact Hib.
  rewrite !qget_1d.
  assert (Hmax : forall f : list nat -> Q,
             length (map f (indices [length batch])) = length batch).
  { intros f. rewrite length_map, length_indices. simpl. lia. }
  rewrite nth_indep with (d' := (0 * GAMMA)%Q).
  2: { rewrite !length_map, length_combine, Hmax, length_map. lia. }
  rewrite (map_nth (fun v => (v * GAMMA)%Q)).
  rewrite nth_masked.
  - rewrite (nth_error_nth _ _ 0%Q (x := reward e))
      by (now rewrite nth_error_map, Hi).
    ring.
  - now rewrite Hmax, length_map.
  - rewrite nth_error_map, Hi. simpl. now rewrite Hlast.
Qed.

(** With networks that answer with one value per action the function
    computes the mean squared error of the text: on the sample batch,
    predictions [2; 7] against targets [6 * 0.99 + 1; -1]. *)
Example calc_loss_on_expected_values :
  exists loss, calc_loss sample_batch sample_qnet sample_qnet = Ok loss /\
               (loss == 442018 # 10000)%Q.
Proof. eexists. split; [reflexivity | vm_compute; reflexivity]. Qed.

Lemma terminal_target_is_reward_example :
  exists target,
    expected_state_action_values sample_qnet
      (mkTensor [2; 4; 84; 84] (data white ++ data white ++ []))
      (np_array1 [false; true]) (np_array1 [1; -1]%Q) = Ok target /\
    shape target = [2] /\
    (qget target [1%nat] == -1)%Q.
Proof.
  exact (@terminal_target_is_reward _ _ sample_qnet sample_batch
           _ _ _ _ _ _ 6 1 (mkExperience white 0 (-1) None)
           eq_refl eq_refl eq_refl (le_S _ _ (le_S _ _ (le_S _ _ (le_S _ _ (le_S _ _ (le_n 1))))))
           eq_refl eq_refl).
Defined.

(** ** The softmax of the expectation reducer *)

Lemma view_flat {A : Type} (t : Tensor A) (r c : nat) :
  1 <= c -> numel (shape t) = r * c ->
  view [(-1)%Z; Z.of_nat c] t = Ok (mkTensor [r; c] (data t)).
Proof.
  intros Hc Hn. unfold view.
  assert (Hf : filter (fun d => negb (Z.eqb d (-1))) [(-1)%Z; Z.of_nat c]
               = [Z.of_nat c]).
  { simpl. now rewrite Z_of_nat_not_m1. }
  assert (He : existsb (fun d => Z.ltb d (-1)) [(-1)%Z; Z.of_nat c] = false).
  { simpl. now rewrite Z_of_nat_not_lt_m1. }
  rewrite Hf, He. simpl length. simpl Nat.sub. cbv iota.
  simpl map. rewrite Z_of_nat_not_m1. simpl numel at 1 3 4.
  rewrite !Nat2Z.id, !Nat.mul_1_r, Hn.
  destruct (Nat.eqb_spec c 0) as [->|_]; [lia|].
  rewrite Nat.Div0.mod_mul, Nat.div_mul by lia.
  reflexivity.
Qed.

Lemma filter_known_of_nat (s : list nat) :
  filter (fun d => negb (Z.eqb d (-1))) (map Z.of_nat s) = map Z.of_nat s.
Proof.
  induction s as [|d s IH]; simpl; [reflexivity|].
  now rewrite Z_of_nat_not_m1, IH.
Qed.

Lemma existsb_lt_of_nat (s : list nat) :
  existsb (fun d => Z.ltb d (-1)) (map Z.of_nat s) = false.
Proof.
  induction s as [|d s IH]; simpl; [reflexivity|].
  now rewrite Z_of_nat_not_lt_m1, IH.
Qed.

Lemma to_nat_of_nat (s : list nat) : map Z.to_nat (map Z.of_nat s) = s.
Proof.
  induction s as [|d s IH]; simpl; [reflexivity|].
  now rewrite Nat2Z.id, IH.
Qed.

(** [x.view(s)] for a shape [s] of as many elements. *)
Lemma view_exact {A : Type} (t : Tensor A) (s : list nat) :
  numel (shape t) = numel s ->
  view (map Z.of_nat s) t = Ok (mkTensor s (data t)).
Proof.
  intros Hn. unfold view.
  rewrite filter_known_of_nat, existsb_lt_of_nat, Nat.sub_diag, to_nat_of_nat, Hn.
  now rewrite Nat.eqb_refl.
Qed.

Lemma Qsum_pos (l : list Q) :
  l <> [] -> (forall v, In v l -> (0 < v)%Q) -> (0 < Qsum l)%Q.
Proof.
  induction l as [|v l IH]; [congruence|]. intros _ Hall. simpl.
  assert (Hv : (0 < v)%Q) by (apply Hall; now left).
  destruct l as [|w l].
  - simpl. lra.
  - assert (Hr : (0 < Qsum (w :: l))%Q).
    { apply IH; [discriminate|]. intros u Hu. apply Hall. now right. }
    lra.
Qed.

Lemma Qsum_div (f : nat -> Q) (d : Q) (l : list nat) :
  (Qsum (map (fun k => f k / d) l) == Qsum (map f l) / d)%Q.
Proof.
  induction l as [|k l IH]; simpl.
  - unfold Qdiv. ring.
  - rewrite IH. unfold Qdiv. ring.
Qed.

Lemma offset_slice (nb na c b a k : nat) :
  offset [nb; na; c] [b; a; k] = offset [nb * na; c] [b * na + a; k].
Proof. simpl. nia. Qed.

Lemma softmax_slice (exp : Q -> Q) (cat_out sm : Tensor Q)
    (n_batch n_actions b a k : nat) :
  shape cat_out = [n_batch; n_actions; N_ATOMS] ->
  b < n_batch -> a < n_actions -> k < N_ATOMS ->
  softmax_dim exp 1 (mkTensor [n_batch * n_actions; N_ATOMS] (data cat_out)) = Ok sm ->
  qget (mkTensor [n_batch; n_actions; N_ATOMS] (data sm)) [b; a; k] =
  Qdiv (exp (qget cat_out [b; a; k]))
       (Qsum_upto N_ATOMS (fun j => exp (qget cat_out [b; a; j]))).
Proof.
  intros Hs Hb Ha Hk Hsm.
  unfold softmax_dim in Hsm. cbn [shape length Nat.ltb Nat.leb nth] in Hsm.
  apply Ok_inj in Hsm. subst sm.
  unfold qget at 1, get at 1. cbn [shape data].
  rewrite offset_slice.
  match goal with |- nth _ (data (tabulate ?s ?f)) _ = _ =>
    change (get 0%Q (tabulate s f) [b * n_actions + a; k] =
            Qdiv (exp (qget cat_out [b; a; k]))
                 (Qsum_upto N_ATOMS (fun j => exp (qget cat_out [b; a; j]))))
  end.
  rewrite get_tabulate by (simpl; split; [nia | lia]).
  assert (Hq : forall j, qget (mkTensor [n_batch * n_actions; N_ATOMS] (data cat_out))
                           [b * n_actions + a; j] = qget cat_out [b; a; j]).
  { intros j. unfold qget, get. cbn [shape]. rewrite Hs.
    now rewrite offset_slice. }
  rewrite Hq. unfold Qsum_upto. f_equal. f_equal.
  apply map_ext. intros j. cbn [set_nth firstn skipn app]. now rewrite Hq.
Qed.

Lemma CategoricalQValues_probs_ok (exp : Q -> Q) {N : Type} `{nn_Module N}
    (self : CategoricalQValues N) (x cat_out : Tensor Q) (n_batch n_actions : nat) :
  forward (cat_net self) x = Ok cat_out ->
  shape cat_out = [n_batch; n_actions; N_ATOMS] ->
  exists probs,
    CategoricalQValues_probs exp self x = Ok probs /\
    shape probs = [n_batch; n_actions; N_ATOMS] /\
    forall b a k, b < n_batch -> a < n_actions -> k < N_ATOMS ->
      qget probs [b; a; k] =
      Qdiv (exp (qget cat_out [b; a; k]))
           (Qsum_upto N_ATOMS (fun j => exp (qget cat_out [b; a; j]))).
Proof.
  intros Hf Hs.
  unfold CategoricalQValues_probs. rewrite Hf. cbn [bind].
  rewrite view_flat with (r := n_batch * n_actions);
    [ | unfold N_ATOMS; lia | rewrite Hs; cbn [numel fold_right]; lia ].
  cbn [bind]. unfold Softmax_forward. cbn [shape length].
  destruct (softmax_dim exp 1 (mkTensor [n_batch * n_actions; N_ATOMS] (data cat_out)))
    as [sm|e] eqn:Hsm; [|unfold softmax_dim in Hsm; discriminate].
  assert (Hshape : shape sm = [n_batch * n_actions; N_ATOMS]).
  { unfold softmax_dim in Hsm. cbn [shape length Nat.ltb Nat.leb] in Hsm.
    apply Ok_inj in Hsm. now subst sm. }
  cbn [bind]. rewrite Hs.
  rewrite view_exact by (rewrite Hshape; cbn [numel fold_right]; lia).
  eexists. split; [reflexivity|]. split; [reflexivity|].
  intros b a k Hb Ha Hk. now apply softmax_slice.
Qed.

(** C7.  Whatever value network the reducer wraps, as long as it
    answers with scores of shape [batch; n_actions; N_ATOMS], and for
    any positive exponential: the probabilities of line 89 have the same
    shape; in every (batch, action) slice each one is the exponential of
    its own score divided by the sum of the exponentials of the scores
    of that slice alone, so they are non-negative and add up to 1. *)
Theorem probs_are_distributions (exp : Q -> Q) {N : Type} `{nn_Module N}
    (self : CategoricalQValues N) (x cat_out : Tensor Q)
    (n_batch n_actions b a : nat) :
  (forall v, (0 < exp v)%Q) ->
  forward (cat_net self) x = Ok cat_out ->
  shape cat_out = [n_batch; n_actions; N_ATOMS] ->
  b < n_batch -> a < n_actions ->
  exists probs,
    CategoricalQValues_probs exp self x = Ok probs /\
    shape probs = [n_batch; n_actions; N_ATOMS] /\
    (forall k, k < N_ATOMS ->
       qget probs [b; a; k] =
       Qdiv (exp (qget cat_out [b; a; k]))
            (Qsum_upto N_ATOMS (fun j => exp (qget cat_out [b; a; j])))) /\
    (forall k, k < N_ATOMS -> (0 <= qget probs [b; a; k])%Q) /\
    (Qsum_upto N_ATOMS (fun k => qget probs [b; a; k]) == 1)%Q.
Proof.
  intros Hexp Hf Hs Hb Ha.
  destruct (CategoricalQValues_probs_ok exp self x Hf Hs) as [probs [Hp [Hsh Hval]]].
  set (S := Qsum_upto N_ATOMS (fun j => exp (qget cat_out [b; a; j]))) in *.
  assert (HS : (0 < S)%Q).
  { apply Qsum_pos; [discriminate|].
    intros v Hv. apply in_map_iff in Hv. destruct Hv as [j [<- _]]. apply Hexp. }
  exists probs. split; [exact Hp|]. split; [exact Hsh|].
  split; [intros k Hk; now apply Hval|]. split.
  - intros k Hk. rewrite (Hval b a k Hb Ha Hk).
    apply Qle_shift_div_l; [exact HS|]. specialize (Hexp (qget cat_out [b; a; k])). lra.
  - unfold Qsum_upto.
    rewrite map_ext_in with (g := fun k => Qdiv (exp (qget cat_out [b; a; k])) S).
    + rewrite Qsum_div. fold (Qsum_upto N_ATOMS (fun k => exp (qget cat_out [b; a; k]))).
      fold S. field. lra.
    + intros k Hk. apply in_seq in Hk. apply Hval; lia.
Qed.

Lemma exp2_pos (v : Q) : (0 < exp2 v)%Q.
Proof. unfold exp2. apply Qpower_0_lt. reflexivity. Qed.

Lemma probs_are_distributions_example :
  exists probs,
    CategoricalQValues_probs exp2
      (mkCategoricalQValues sample_cat_net (zeros [50])) black = Ok probs /\
    shape probs = [2; 6; N_ATOMS] /\
    (forall k, k < N_ATOMS ->
       qget probs [1; 5; k] =
       Qdiv (exp2 (qget (zeros [2; 6; N_ATOMS]) [1; 5; k]))
            (Qsum_upto N_ATOMS
               (fun j => exp2 (qget (zeros [2; 6; N_ATOMS]) [1; 5; j])))) /\
    (forall k, k < N_ATOMS -> (0 <= qget probs [1%nat; 5%nat; k])%Q) /\
    (Qsum_upto N_ATOMS (fun k => qget probs [1%nat; 5%nat; k]) == 1)%Q.
Proof.
  apply (@probs_are_distributions exp2 (Tensor Q -> result (Tensor Q)) Callable_Module
           (mkCategoricalQValues sample_cat_net (zeros [50])) black
           (zeros [2; 6; N_ATOMS]) 2 6 1 5 exp2_pos eq_refl eq_refl); lia.
Defined.

(** With the 50-element support of line 84 the product of line 90 is
    refused: the reducer's forward pass raises on every answer of the
    shape [batch; n_actions; N_ATOMS]. *)
Lemma CategoricalQValues_forward_raises (exp : Q -> Q) {N : Type} `{nn_Module N}
    (cat : N) (self : CategoricalQValues N) (x cat_out : Tensor Q)
    (n_batch n_actions : nat) :
  CategoricalQValues_init cat = Ok self ->
  forward (cat_net self) x = Ok cat_out ->
  shape cat_out = [n_batch; n_actions; N_ATOMS] ->
  CategoricalQValues_forward exp self x = Raise RuntimeError.
Proof.
  intros Hinit Hf Hs.
  unfold CategoricalQValues_init in Hinit. rewrite make_supports_value in Hinit.
  cbn [bind] in Hinit. apply Ok_inj in Hinit. subst self.
  cbn [cat_net] in Hf.
  destruct (CategoricalQValues_probs_ok exp
              (mkCategoricalQValues cat
                 (mkTensor [50]
                    (map (fun i => (inject_Z Vmin + inject_Z (Z.of_nat i) *
                            (inject_Z (Vmax - Vmin) / inject_Z (Z.of_nat N_ATOMS - 1)))%Q)
                         (seq 0 50)))) x Hf Hs)
    as [probs [Hp [Hsh _]]].
  unfold CategoricalQValues_forward. rewrite Hp. cbn [bind supports].
  unfold mul, binop. rewrite Hsh. reflexivity.
Qed.

(** ** Determinism of the loss *)

Lemma tensor_eta {A : Type} (t : Tensor A) : mkTensor (shape t) (data t) = t.
Proof. now destruct t. Qed.

Lemma deref_app (m ext : Mem.Memory) (a : Mem.Array) :
  allocated m a -> Mem.deref (m ++ ext) a = Mem.deref m a.
Proof.
  unfold allocated, Mem.deref. intros Ha. now rewrite app_nth1.
Qed.

Lemma map_deref_app (m ext : Mem.Memory) (l : list Mem.Array) :
  Forall (allocated m) l ->
  map (Mem.deref (m ++ ext)) l = map (Mem.deref m) l.
Proof.
  intros Hl. apply map_ext_in. intros a Ha. apply deref_app.
  rewrite Forall_forall in Hl. now apply Hl.
Qed.

Lemma in_memory_app (m ext : Mem.Memory) (e : Mem.Experience) :
  in_memory m e -> in_memory (m ++ ext) e.
Proof.
  unfold in_memory, allocated. rewrite length_app. intros [Hs Hl]. split; [lia|].
  destruct (Mem.last_state e); [lia|exact I].
Qed.

Lemma resolve_app (m ext : Mem.Memory) (e : Mem.Experience) :
  in_memory m e -> resolve (m ++ ext) e = resolve m e.
Proof.
  unfold in_memory, resolve. intros [Hs Hl]. rewrite (deref_app ext Hs).
  destruct (Mem.last_state e); [|reflexivity].
  cbn [option_map]. now rewrite (deref_app ext Hl).
Qed.

Lemma map_resolve_app (m ext : Mem.Memory) (batch : list Mem.Experience) :
  Forall (in_memory m) batch ->
  map (resolve (m ++ ext)) batch = map (resolve m) batch.
Proof.
  intros Hb. apply map_ext_in. intros e He. apply resolve_app.
  rewrite Forall_forall in Hb. now apply Hb.
Qed.

(** Reading, allocating and overwriting past the first [length m]
    buffers. *)
Lemma read_at (m ext : Mem.Memory) (k : nat) (s : list nat) :
  Mem.read (Mem.mkArray (length m + k) s) (m ++ ext) =
  (m ++ ext, Ok (mkTensor s (nth k ext []))).
Proof.
  unfold Mem.read, Mem.deref. cbn [Mem.storage Mem.dims].
  now rewrite app_nth2_plus.
Qed.

Lemma new_at (m ext : Mem.Memory) (t : Tensor Q) :
  Mem.new t (m ++ ext) =
  (m ++ (ext ++ [data t]), Ok (Mem.mkArray (length m + length ext) (shape t))).
Proof.
  unfold Mem.new. now rewrite length_app, app_assoc.
Qed.

Lemma write_at (m ext : Mem.Memory) (k : nat) (s : list nat) (d : list Q) :
  Mem.write (Mem.mkArray (length m + k) s) d (m ++ ext) =
  (m ++ set_nth k d ext, Ok tt).
Proof.
  unfold Mem.write, set_nth. cbn [Mem.storage].
  rewrite firstn_app_2, skipn_app.
  rewrite (skipn_all2 m) by lia.
  replace (S (length m + k) - length m) with (S k) by lia.
  now rewrite <- app_assoc.
Qed.

Lemma squeeze_last_view (g : Tensor Q) :
  mkTensor (shape (squeeze_last (mkTensor (shape g) (@nil Q)))) (data g) =
  squeeze_last g.
Proof.
  unfold squeeze_last. cbn [shape].
  destruct (rev (shape g)) as [|[|[|k]] r]; cbn [shape data];
    try apply tensor_eta; reflexivity.
Qed.

Lemma masked_fill_shape (x r : Tensor Q) (mask : Tensor bool) (v : Q) :
  masked_fill x mask v = Ok r -> shape r = shape x.
Proof.
  unfold masked_fill. destruct (list_eqb _ _); [|discriminate].
  intros Hr. apply Ok_inj in Hr. now subst r.
Qed.

(** The lists that the loop of [unpack_batch] collects hold the objects
    of the lists collected over the values. *)
Lemma unpack_fold_resolve (m : Mem.Memory) (batch : list Mem.Experience) :
  forall s a r d l,
    fold_left unpack_step (map (resolve m) batch)
      (map (Mem.deref m) s, a, r, d, map (Mem.deref m) l) =
    let '(s', a', r', d', l') := fold_left Mem.unpack_step batch (s, a, r, d, l) in
    (map (Mem.deref m) s', a', r', d', map (Mem.deref m) l').
Proof.
  induction batch as [|e batch IH]; intros s a r d l; [reflexivity|].
  cbn [map fold_left].
  replace (unpack_step (map (Mem.deref m) s, a, r, d, map (Mem.deref m) l)
             (resolve m e))
    with (map (Mem.deref m) (s ++ [Mem.state e]), a ++ [Mem.action e],
          r ++ [Mem.reward e], d ++ [is_None (Mem.last_state e)],
          map (Mem.deref m)
            (l ++ [match Mem.last_state e with
                   | None => Mem.state e
                   | Some x => x
                   end])).
  - apply IH.
  - unfold unpack_step, resolve. cbn [state action reward last_state].
    rewrite !map_app. destruct (Mem.last_state e); reflexivity.
Qed.

Lemma unpack_fold_allocated (m : Mem.Memory) (batch : list Mem.Experience) :
  Forall (in_memory m) batch ->
  forall s a r d l,
    Forall (allocated m) s -> Forall (allocated m) l ->
    let '(s', _, _, _, l') := fold_left Mem.unpack_step batch (s, a, r, d, l) in
    Forall (allocated m) s' /\ Forall (allocated m) l'.
Proof.
  induction 1 as [|e batch [He Hl] Hb IH]; intros s a r d l Hs Hls.
  - cbn [fold_left]. now split.
  - cbn [fold_left Mem.unpack_step]. apply IH.
    + apply Forall_app. split; [exact Hs|]. now constructor.
    + apply Forall_app. split; [exact Hls|]. constructor; [|constructor].
      destruct (Mem.last_state e); assumption.
Qed.

Lemma unpack_batch_in_memory (m : Mem.Memory) (batch : list Mem.Experience) :
  Forall (in_memory m) batch ->
  match unpack_batch (map (resolve m) batch) with
  | Ok (s, a, r, d, n) =>
      Mem.unpack_batch batch m =
      (m ++ [data s; data r; data n],
       Ok (Mem.mkArray (length m + 0) (shape s), a,
           Mem.mkArray (length m + 1) (shape r), d,
           Mem.mkArray (length m + 2) (shape n)))
  | Raise e => exists ext, Mem.unpack_batch batch m = (m ++ ext, Raise e)
  end.
Proof.
  intros Hin. unfold unpack_batch, Mem.unpack_batch.
  pose proof (unpack_fold_resolve m batch [] [] [] [] []) as Hf.
  pose proof (@unpack_fold_allocated m batch Hin [] [] [] [] []
                (Forall_nil _) (Forall_nil _)) as Ha.
  cbn [map] in Hf.
  destruct (fold_left Mem.unpack_step batch ([], [], [], [], []))
    as [[[[S A] R] D] L].
  rewrite Hf. destruct Ha as [HS HL].
  unfold Mem.np_array, Mem.mbind, Mem.read_all, Mem.lift. cbv beta iota.
  destruct (np_array (map (Mem.deref m) S)) as [s|e]; cbn [bind].
  2: { exists []. now rewrite app_nil_r. }
  unfold Mem.new. cbv beta iota. cbn [data shape np_array1].
  rewrite <- app_assoc, (map_deref_app _ HL).
  destruct (np_array (map (Mem.deref m) L)) as [n|e]; cbn [bind].
  2: { eexists. reflexivity. }
  cbn [data shape np_array1].
  rewrite <- !app_assoc, !length_app. cbn [length app].
  rewrite Nat.add_0_r. reflexivity.
Qed.

Lemma deref_at (m ext : Mem.Memory) (k : nat) (s : list nat) :
  Mem.deref (m ++ ext) (Mem.mkArray (length m + k) s) = mkTensor s (nth k ext []).
Proof.
  unfold Mem.deref. cbn [Mem.storage Mem.dims]. now rewrite app_nth2_plus.
Qed.

Ltac mem_step :=
  repeat (first [rewrite read_at | rewrite new_at | rewrite write_at];
          cbn [nth length app set_nth firstn skipn Mem.storage Mem.dims];
          rewrite ?tensor_eta; cbv beta iota).

Ltac mem_raised :=
  eexists; eexists; split; reflexivity.

Lemma calc_loss_in_memory_run {N T : Type} `{nn_Module N} `{nn_Module T}
    (net : N) (tgt_net : T) (batch : list Mem.Experience) (m : Mem.Memory) :
  Forall (in_memory m) batch ->
  exists ext r,
    Mem.calc_loss batch net tgt_net m = (m ++ ext, r) /\ outcome (m ++ ext, r) =
    bind (calc_loss (map (resolve m) batch) net tgt_net)
         (fun l => Ok (mkTensor [] [l])).
Proof.
  intros Hin. pose proof (unpack_batch_in_memory Hin) as Hu.
  unfold Mem.calc_loss, calc_loss. unfold Mem.mbind at 1.
  destruct (unpack_batch (map (resolve m) batch)) as [[[[[s a] r] d] n]|e].
  2: { destruct Hu as [ext ->]. exists ext, (Raise e). now split. }
  rewrite Hu. cbn [bind]. cbv beta iota zeta.
  unfold state_action_values, expected_state_action_values, next_state_values,
    max_next_values.
  unfold Mem.call, Mem.gather, Mem.max_dim, Mem.masked_fill, Mem.mul_scalar,
    Mem.add, Mem.MSELoss, Mem.squeeze_last, Mem.mbind, Mem.lift.
  cbv beta. cbn [Mem.storage Mem.dims].
  mem_step. destruct (forward net s) as [out|e]; cbn [bind]; [|mem_raised].
  mem_step. destruct (gather 1 out (unsqueeze_last a)) as [g|e]; cbn [bind];
    [|mem_raised].
  mem_step. destruct (forward tgt_net n) as [out'|e]; cbn [bind]; [|mem_raised].
  mem_step. destruct (max_dim 1 out') as [mx|e]; cbn [bind]; [|mem_raised].
  mem_step. destruct (masked_fill mx d 0) as [mf|e] eqn:Hmf; cbn [bind];
    [|mem_raised].
  mem_step. rewrite <- (@masked_fill_shape _ _ _ _ Hmf), !tensor_eta.
  destruct (add (mul_scalar mf GAMMA) r) as [esav|e]; cbn [bind]; [|mem_raised].
  mem_step. rewrite squeeze_last_view.
  destruct (MSELoss (squeeze_last g) esav) as [l|e]; cbn [bind]; [|mem_raised].
  mem_step. eexists. eexists. split; [reflexivity|].
  unfold outcome. cbn [fst snd]. rewrite deref_at. reflexivity.
Qed.


(** C8.  Two runs of [calc_loss] on one batch and the same two networks
    return the same thing, the same loss or the same exception, also when
    the second run starts in the memory that the first one left behind:
    the first run has left every array of the batch as it found it (its
    one write in place, line 128, falls into a buffer of its own).  What
    is returned is the loss of the transitions that the batch holds, as
    [calc_loss] of the functional model computes it, so it does not
    depend on anything else in memory either: a run in any other memory,
    on any objects that hold the same transitions, returns the same. *)
Theorem calc_loss_deterministic {N T : Type} `{nn_Module N} `{nn_Module T}
    (net : N) (tgt_net : T) (batch : list Mem.Experience) (m : Mem.Memory) :
  Forall (in_memory m) batch ->
  outcome (Mem.calc_loss batch net tgt_net
             (fst (Mem.calc_loss batch net tgt_net m))) =
  outcome (Mem.calc_loss batch net tgt_net m) /\
  map (resolve (fst (Mem.calc_loss batch net tgt_net m))) batch =
  map (resolve m) batch /\
  outcome (Mem.calc_loss batch net tgt_net m) =
  bind (calc_loss (map (resolve m) batch) net tgt_net)
       (fun loss => Ok (mkTensor [] [loss])) /\
  (forall batch' m',
     Forall (in_memory m') batch' ->
     map (resolve m') batch' = map (resolve m) batch ->
     outcome (Mem.calc_loss batch' net tgt_net m') =
     outcome (Mem.calc_loss batch net tgt_net m)).
Proof.
  intros Hin.
  destruct (calc_loss_in_memory_run net tgt_net Hin) as [ext [r [Hrun Hout]]].
  rewrite Hrun, Hout. cbn [fst].
  assert (Hin' : Forall (in_memory (m ++ ext)) batch).
  { eapply Forall_impl; [|exact Hin]. intros e He. now apply in_memory_app. }
  destruct (calc_loss_in_memory_run net tgt_net Hin') as [ext' [r' [Hrun' Hout']]].
  rewrite Hrun', Hout', (map_resolve_app ext Hin).
  repeat (split; [reflexivity|]).
  intros batch' m' Hb Heq.
  destruct (calc_loss_in_memory_run net tgt_net Hb) as [ext2 [r2 [Hrun2 Hout2]]].
  now rewrite Hrun2, Hout2, Heq.
Qed.

Lemma calc_loss_deterministic_example :
  exists loss : Q,
    outcome (Mem.calc_loss sample_objects sample_qnet sample_qnet sample_memory) =
    Ok (mkTensor [] [loss]) /\
    outcome (Mem.calc_loss sample_objects sample_qnet sample_qnet
               (fst (Mem.calc_loss sample_objects sample_qnet sample_qnet
                       sample_memory))) =
    Ok (mkTensor [] [loss]) /\
    (loss == 221009 # 5000)%Q.
Proof.
  assert (Hin : Forall (in_memory sample_memory) sample_objects).
  { repeat constructor; cbn; lia. }
  destruct (@calc_loss_deterministic _ _ Callable_Module Callable_Module
              sample_qnet sample_qnet sample_objects sample_memory Hin)
    as [Htwice _].
  eexists. split; [vm_compute; reflexivity|].
  split; [rewrite Htwice; vm_compute; reflexivity|].
  vm_compute. reflexivity.
Defined.

(** ** The gate on the replay buffer *)

Lemma report_log (env : Env) (st : LoopState) :
  exists evs,
    log (fst (report env st)) = log st ++ evs /\
    Forall (fun ev => is_update ev = false) evs /\
    net (fst (report env st)) = net st /\
    target_model (fst (report env st)) = target_model st.
Proof.
  unfold report.
  destruct (new_rewards env) as [|r0 rs].
  - exists []. simpl. rewrite app_nil_r. auto.
  - destruct (Qeq_bool _ 0).
    + exists []. simpl. rewrite app_nil_r. auto.
    + destruct (negb _).
      * eexists. cbn [fst emit log net target_model]. rewrite <- app_assoc.
        split; [reflexivity|]. split; [|split; reflexivity].
        repeat constructor.
      * eexists. cbn [fst log net target_model].
        split; [reflexivity|]. split; [|split; reflexivity].
        repeat constructor.
Qed.

Lemma train_gated (env : Env) (st : LoopState) :
  (buffer_len env < REPLAY_START_SIZE)%Z -> train env st = (st, Next).
Proof.
  intros Hlt. unfold train. now rewrite (proj2 (Z.ltb_lt _ _) Hlt).
Qed.

(** C10.  A pass of the loop body in which [len(buffer)] is below
    [REPLAY_START_SIZE = 10000] calls the collaborators for experience
    collection and metrics only: its log entries are [populate(1)]
    followed by prints and scalars, none of them a call of lines
    191-198, and the parameters of both networks are left as they
    were. *)
Theorem no_update_below_replay_start (env : Env) (st : LoopState) :
  (buffer_len env < 10000)%Z ->
  exists evs,
    log (fst (iteration env st)) = log st ++ populate 1 :: evs /\
    Forall (fun ev => is_update ev = false) evs /\
    net (fst (iteration env st)) = net st /\
    target_model (fst (iteration env st)) = target_model st.
Proof.
  intros Hlt. unfold iteration.
  match goal with |- context [report env ?s] =>
    destruct (report_log env s) as [evs [Hl [Hev [Hn Ht]]]];
    destruct (report env s) as [st2 o] end.
  cbn [fst log net target_model] in Hl, Hn, Ht.
  exists evs.
  assert (Hgoal : log st2 = log st ++ populate 1 :: evs)
    by (rewrite Hl, <- app_assoc; reflexivity).
  destruct o; cbn [fst]; try (repeat split; assumption).
  rewrite train_gated by exact Hlt. cbn [fst]. repeat split; assumption.
Qed.

Lemma no_update_below_replay_start_example :
  exists evs,
    log (fst (iteration (mkEnv [21%Q] 2 3 9999 sample_batch sample_net)
                        (initial sample_net 1))) =
      log (initial sample_net 1) ++ populate 1 :: evs /\
    Forall (fun ev => is_update ev = false) evs /\
    net (fst (iteration (mkEnv [21%Q] 2 3 9999 sample_batch sample_net)
                        (initial sample_net 1))) = net (initial sample_net 1) /\
    target_model (fst (iteration (mkEnv [21%Q] 2 3 9999 sample_batch sample_net)
                                 (initial sample_net 1))) =
      target_model (initial sample_net 1).
Proof.
  apply (@no_update_below_replay_start
           (mkEnv [21%Q] 2 3 9999 sample_batch sample_net) (initial sample_net 1)).
  reflexivity.
Defined.

(** * Further properties of the code *)

(** ** Construction and input shapes of the value network *)

Lemma Conv2d_forward_channels (m : Conv2d) (x : Tensor Q)
    (n c h w oc ic kh kw : nat) :
  shape x = [n; c; h; w] -> shape (weight m) = [oc; ic; kh; kw] -> c <> ic ->
  Conv2d_forward m x = Raise RuntimeError.
Proof.
  intros Hx Hw Hc. unfold Conv2d_forward. rewrite Hx, Hw.
  now rewrite (proj2 (Nat.eqb_neq c ic) Hc), andb_false_r.
Qed.

Lemma Linear_forward_mismatch (m : Linear) (x : Tensor Q) (b k in_f out_f : nat) :
  shape x = [b; k] -> shape (lin_weight m) = [out_f; in_f] -> k <> in_f ->
  Linear_forward m x = Raise RuntimeError.
Proof.
  intros Hx Hw Hk. unfold Linear_forward. rewrite Hx, Hw. simpl.
  now rewrite (proj2 (Nat.eqb_neq k in_f) Hk).
Qed.

Lemma get_conv_out_inv (init : nat -> list nat -> Q) (c h w n : nat) :
  _get_conv_out (conv_layers init c) [c; h; w] = Ok n ->
  1 <= c /\ 36 <= h /\ 36 <= w /\ n = 64 * (conv_size h * conv_size w).
Proof.
  intros Hn.
  assert (Hc : 1 <= c).
  { destruct c as [|c]; [|lia]. unfold _get_conv_out in Hn.
    rewrite (@conv_layers_no_channels init (zeros [1; 0; h; w]) 1 h w eq_refl)
      in Hn. discriminate. }
  destruct (Nat.lt_ge_cases h 36) as [Hh | Hh].
  { unfold _get_conv_out in Hn.
    rewrite (@conv_layers_small init (zeros [1; c; h; w]) 1 c h w eq_refl) in Hn
      by (now left). discriminate. }
  destruct (Nat.lt_ge_cases w 36) as [Hw | Hw].
  { unfold _get_conv_out in Hn.
    rewrite (@conv_layers_small init (zeros [1; c; h; w]) 1 c h w eq_refl) in Hn
      by (now right). discriminate. }
  rewrite get_conv_out_ok in Hn by assumption. apply Ok_inj in Hn. auto.
Qed.

(** X1.  The constructor returns a network for every input shape
    [(c, h, w)] with at least one channel and both spatial sizes at
    least 36, and for no shape that is not of this form: the empty shape
    raises IndexError at [input_shape[0]], and a frame with a side below
    36 raises in the dummy pass, where one of the kernels no longer
    fits. *)
Theorem constructor_input_shapes (init : nat -> list nat -> Q) (n_actions : nat) :
  (forall c h w, 1 <= c -> 36 <= h -> 36 <= w ->
     exists net, CategoricalDQN_init init [c; h; w] n_actions = Ok net) /\
  (forall input_shape net,
     CategoricalDQN_init init input_shape n_actions = Ok net ->
     exists c h w, input_shape = [c; h; w] /\ 36 <= h /\ 36 <= w) /\
  CategoricalDQN_init init [] n_actions = Raise IndexError /\
  (forall c h w, h < 36 \/ w < 36 ->
     CategoricalDQN_init init [c; h; w] n_actions = Raise RuntimeError).
Proof.
  split; [|split; [|split]].
  - intros c h w Hc Hh Hw. eexists. now apply CategoricalDQN_init_ok.
  - intros input_shape net Hinit. exact (CategoricalDQN_init_inv _ _ _ Hinit).
  - reflexivity.
  - intros c h w Hsmall. unfold CategoricalDQN_init, _get_conv_out.
    now rewrite (@conv_layers_small init (zeros [1; c; h; w]) 1 c h w eq_refl).
Qed.

(** X2.  The number that [_get_conv_out] measures on one zero
    observation is the number of features per sample of every batch:
    the convolutions turn a batch of [b] observations of that shape into
    [b] times as many elements, whatever the parameters.  It is
    [64 * conv_size h * conv_size w], the same for every number of input
    channels. *)
Theorem conv_out_size_per_sample (init : nat -> list nat -> Q)
    (c h w n b : nat) (x : Tensor Q) :
  _get_conv_out (conv_layers init c) [c; h; w] = Ok n ->
  shape x = [b; c; h; w] ->
  n = 64 * (conv_size h * conv_size w) /\
  exists o, Sequential_forward (conv_layers init c) x = Ok o /\
            shape o = [b; 64; conv_size h; conv_size w] /\
            numel (shape o) = b * n.
Proof.
  intros Hn Hx. destruct (get_conv_out_inv _ _ _ _ Hn) as [Hc [Hh [Hw ->]]].
  split; [reflexivity|].
  destruct (@conv_layers_forward init x b c h w Hx Hh Hw Hc) as [o [Ho Hs]].
  exists o. split; [exact Ho|]. split; [exact Hs|].
  rewrite Hs. cbn [numel fold_right]. lia.
Qed.

Lemma conv_out_size_per_sample_example :
  3136 = 64 * (conv_size 84 * conv_size 84) /\
  exists o, Sequential_forward (conv_layers sample_init 4) (zeros [32; 4; 84; 84]) = Ok o /\
            shape o = [32; 64; conv_size 84; conv_size 84] /\
            numel (shape o) = 32 * 3136.
Proof.
  exact (@conv_out_size_per_sample sample_init 4 84 84 3136 32
           (zeros [32; 4; 84; 84]) eq_refl eq_refl).
Defined.

(** The forward pass of a network whose first linear layer takes
    [in_features] inputs, on a batch of any spatial size that the
    convolutions accept. *)
Lemma stack_forward (init : nat -> list nat -> Q) (c h w in_features n_actions : nat)
    (x : Tensor Q) (batch_size : nat) :
  36 <= h -> 36 <= w -> 1 <= c ->
  shape x = [batch_size; c; h; w] -> 1 <= batch_size ->
  (64 * (conv_size h * conv_size w) = in_features ->
   exists out,
     forward (mkCategoricalDQN (conv_layers init c)
                (fc_layers init in_features n_actions)) x = Ok out /\
     shape out = [batch_size; n_actions; N_ATOMS]) /\
  (64 * (conv_size h * conv_size w) <> in_features ->
   forward (mkCategoricalDQN (conv_layers init c)
              (fc_layers init in_features n_actions)) x = Raise RuntimeError).
Proof.
  intros Hh Hw Hc Hx Hb. split.
  - intros <-. now apply built_forward.
  - intros Hne.
    cbn [forward CategoricalDQN_Module]. unfold CategoricalDQN_forward.
    unfold size0. rewrite Hx. cbn [bind conv fc].
    destruct (@conv_layers_forward init (div_scalar x 256) batch_size c h w)
      as [o1 [Ho1 Hs1]]; auto.
    rewrite Ho1. cbn [bind].
    rewrite view_rows with (k := 64 * (conv_size h * conv_size w));
      [ | exact Hb | rewrite Hs1; cbn [numel fold_right]; lia ].
    cbn [bind]. unfold fc_layers. cbn [Sequential_forward Layer_forward bind].
    erewrite Linear_forward_mismatch with (out_f := 512);
      [reflexivity | reflexivity | reflexivity | exact Hne].
Qed.

(** X3.  A network built for frames of [h x w] accepts a batch of frames
    of another size [h' x w'] exactly when the convolutions leave as
    many features: then the output has the usual shape; otherwise the
    first linear layer refuses its input. *)
Theorem forward_on_other_frame_size (init : nat -> list nat -> Q)
    (c h w n_actions : nat) (net : CategoricalDQN) (x : Tensor Q)
    (batch_size h' w' : nat) :
  CategoricalDQN_init init [c; h; w] n_actions = Ok net ->
  shape x = [batch_size; c; h'; w'] ->
  1 <= batch_size -> 36 <= h' -> 36 <= w' ->
  (conv_size h' * conv_size w' = conv_size h * conv_size w ->
   exists out, forward net x = Ok out /\
               shape out = [batch_size; n_actions; N_ATOMS]) /\
  (conv_size h' * conv_size w' <> conv_size h * conv_size w ->
   forward net x = Raise RuntimeError).
Proof.
  intros Hinit Hx Hb Hh' Hw'.
  destruct (CategoricalDQN_init_inv _ _ _ Hinit) as [c0 [h0 [w0 [E [Hh Hw]]]]].
  injection E as <- <- <-.
  pose proof (@CategoricalDQN_init_channels _ _ _ _ _ _ Hinit) as Hc1.
  rewrite CategoricalDQN_init_ok in Hinit by assumption.
  apply Ok_inj in Hinit. subst net.
  destruct (@stack_forward init c h' w' (64 * (conv_size h * conv_size w))
              n_actions x batch_size Hh' Hw' Hc1 Hx Hb) as [Hok Hbad].
  split; intros H; [apply Hok | apply Hbad]; lia.
Qed.

Lemma forward_on_other_frame_size_example :
  (conv_size 85 * conv_size 86 = conv_size 84 * conv_size 84 ->
   exists out, forward sample_net (zeros [2; 4; 85; 86]) = Ok out /\
               shape out = [2; 6; N_ATOMS]) /\
  (conv_size 85 * conv_size 86 <> conv_size 84 * conv_size 84 ->
   forward sample_net (zeros [2; 4; 85; 86]) = Raise RuntimeError).
Proof.
  apply (@forward_on_other_frame_size sample_init 4 84 84 6 sample_net
           (zeros [2; 4; 85; 86]) 2 85 86 sample_net_built eq_refl); lia.
Defined.

(** X4.  On an empty batch, or on frames with another number of
    channels than the network was built for, the forward pass raises:
    [view(0, -1)] cannot infer the flattened size, and the first
    convolution refuses the channels. *)
Theorem forward_rejects_empty_and_channels (init : nat -> list nat -> Q)
    (c h w n_actions : nat) (net : CategoricalDQN) :
  CategoricalDQN_init init [c; h; w] n_actions = Ok net ->
  (forall x, shape x = [0; c; h; w] -> forward net x = Raise RuntimeError) /\
  (forall x b c' h' w', shape x = [b; c'; h'; w'] -> c' <> c ->
     forward net x = Raise RuntimeError).
Proof.
  intros Hinit.
  destruct (CategoricalDQN_init_inv _ _ _ Hinit) as [c0 [h0 [w0 [E [Hh Hw]]]]].
  injection E as <- <- <-.
  pose proof (@CategoricalDQN_init_channels _ _ _ _ _ _ Hinit) as Hc1.
  rewrite CategoricalDQN_init_ok in Hinit by assumption.
  apply Ok_inj in Hinit. subst net. split.
  - intros x Hx.
    cbn [forward CategoricalDQN_Module]. unfold CategoricalDQN_forward.
    unfold size0. rewrite Hx. cbn [bind conv fc].
    destruct (@conv_layers_forward init (div_scalar x 256) 0 c h w)
      as [o1 [Ho1 Hs1]]; auto.
    rewrite Ho1. reflexivity.
  - intros x b c' h' w' Hx Hc.
    cbn [forward CategoricalDQN_Module]. unfold CategoricalDQN_forward.
    unfold size0. rewrite Hx. cbn [bind conv fc].
    unfold conv_layers. cbn [Sequential_forward Layer_forward bind].
    erewrite Conv2d_forward_channels with (c := c') (ic := c);
      [reflexivity | exact Hx | reflexivity | exact Hc].
Qed.

Lemma forward_rejects_empty_and_channels_example :
  (forall x, shape x = [0; 4; 84; 84] -> forward sample_net x = Raise RuntimeError) /\
  (forall x b c' h' w', shape x = [b; c'; h'; w'] -> c' <> 4 ->
     forward sample_net x = Raise RuntimeError).
Proof.
  exact (@forward_rejects_empty_and_channels sample_init 4 84 84 6 sample_net
           sample_net_built).
Defined.

(** ** The forward pass of the expectation reducer *)

(** X5.  The reducer that the main block builds over the value network
    (lines 144-145) raises on every batch of observations: the value
    network answers with [N_ATOMS = 51] scores per action and the
    registered support has 50 entries, so the product of line 90 is
    refused. *)
Theorem qvals_net_forward_raises (exp : Q -> Q) (init : nat -> list nat -> Q)
    (input_shape : list nat) (n_actions : nat) (net0 : CategoricalDQN)
    (qvals_net : CategoricalQValues CategoricalDQN) (x : Tensor Q)
    (batch_size : nat) :
  CategoricalDQN_init init input_shape n_actions = Ok net0 ->
  CategoricalQValues_init net0 = Ok qvals_net ->
  shape x = batch_size :: input_shape -> 1 <= batch_size ->
  CategoricalQValues_forward exp qvals_net x = Raise RuntimeError.
Proof.
  intros Hinit Hq Hx Hb.
  destruct (CategoricalDQN_init_inv _ _ _ Hinit) as [c [h [w [-> [Hh Hw]]]]].
  pose proof (@CategoricalDQN_init_channels _ _ _ _ _ _ Hinit) as Hc.
  rewrite CategoricalDQN_init_ok in Hinit by assumption.
  apply Ok_inj in Hinit. subst net0.
  destruct (@built_forward init c h w n_actions x batch_size Hh Hw Hc Hx Hb)
    as [out [Hf Hs]].
  assert (Hnet : cat_net qvals_net =
                 mkCategoricalDQN (conv_layers init c)
                   (fc_layers init (64 * (conv_size h * conv_size w)) n_actions)).
  { unfold CategoricalQValues_init in Hq. destruct make_supports; [|discriminate].
    cbn [bind] in Hq. apply Ok_inj in Hq. now subst qvals_net. }
  eapply CategoricalQValues_forward_raises with (cat_out := out);
    [exact Hq | rewrite Hnet; exact Hf | exact Hs].
Qed.

Lemma qvals_net_forward_raises_example :
  CategoricalQValues_forward exp2
    (mkCategoricalQValues sample_net
       (mkTensor [50]
          (map (fun i => (inject_Z Vmin + inject_Z (Z.of_nat i) *
                  (inject_Z (Vmax - Vmin) / inject_Z (Z.of_nat N_ATOMS - 1)))%Q)
               (seq 0 50))))
    (zeros [1; 4; 84; 84]) = Raise RuntimeError.
Proof.
  exact (@qvals_net_forward_raises exp2 sample_init [4; 84; 84] 6 sample_net _
           (zeros [1; 4; 84; 84]) 1 sample_net_built eq_refl eq_refl (le_n 1)).
Defined.

Lemma broadcast_last (a b c : nat) : broadcast_shapes [a; b; c] [c] = Ok [a; b; c].
Proof. unfold broadcast_shapes. simpl. now rewrite Nat.eqb_refl. Qed.

Lemma bidx_slice (nb na c b a k : nat) :
  b < nb -> a < na -> k < c -> bidx [nb; na; c] [b; a; k] = [b; a; k].
Proof.
  intros Hb Ha Hk. unfold bidx. simpl.
  destruct (Nat.eqb_spec nb 1), (Nat.eqb_spec na 1), (Nat.eqb_spec c 1);
    repeat f_equal; lia.
Qed.

Lemma bidx_atom (c b a k : nat) : k < c -> bidx [c] [b; a; k] = [k].
Proof.
  intros Hk. unfold bidx. simpl.
  destruct (Nat.eqb_spec c 1); repeat f_equal; lia.
Qed.

Lemma Qsum_weighted_bounds (p s : nat -> Q) (lo hi : Q) (l : list nat) :
  (forall k, In k l -> (0 <= p k)%Q) ->
  (forall k, In k l -> (lo <= s k <= hi)%Q) ->
  (lo * Qsum (map p l) <= Qsum (map (fun k => p k * s k) l)
   /\ Qsum (map (fun k => p k * s k) l) <= hi * Qsum (map p l))%Q.
Proof.
  induction l as [|k l IH]; intros Hp Hs; simpl.
  - split; lra.
  - destruct IH as [IH1 IH2].
    + intros j Hj. apply Hp. now right.
    + intros j Hj. apply Hs. now right.
    + assert (H0 : (0 <= p k)%Q) by (apply Hp; now left).
      assert (H1 : (lo <= s k <= hi)%Q) by (apply Hs; now left).
      split; nra.
Qed.

Lemma softmax_weights (exp : Q -> Q) (f : nat -> Q) (n : nat) :
  (forall v, (0 < exp v)%Q) -> 1 <= n ->
  (forall k, (0 <= exp (f k) / Qsum_upto n (fun j => exp (f j)))%Q) /\
  (Qsum_upto n (fun k => exp (f k) / Qsum_upto n (fun j => exp (f j))) == 1)%Q.
Proof.
  intros Hexp Hn.
  set (S := Qsum_upto n (fun j => exp (f j))).
  assert (HS : (0 < S)%Q).
  { apply Qsum_pos; [destruct n; [lia | discriminate]|].
    intros v Hv. apply in_map_iff in Hv. destruct Hv as [j [<- _]]. apply Hexp. }
  split.
  - intros k. apply Qle_shift_div_l; [exact HS|]. specialize (Hexp (f k)). lra.
  - unfold Qsum_upto. rewrite Qsum_div.
    fold (Qsum_upto n (fun k => exp (f k))). fold S. field. lra.
Qed.

(** X6.  With a support of [N_ATOMS] values in its buffer, the reducer
    returns one value per observation and action, the sum over the atoms
    of probability times support value; being a weighted mean, it lies
    between any two bounds that enclose the support. *)
Theorem reducer_expectation (exp : Q -> Q) {N : Type} `{nn_Module N}
    (self : CategoricalQValues N) (x cat_out : Tensor Q) (n_batch n_actions : nat) :
  (forall v, (0 < exp v)%Q) ->
  forward (cat_net self) x = Ok cat_out ->
  shape cat_out = [n_batch; n_actions; N_ATOMS] ->
  shape (supports self) = [N_ATOMS] ->
  exists probs q,
    CategoricalQValues_probs exp self x = Ok probs /\
    CategoricalQValues_forward exp self x = Ok q /\
    shape q = [n_batch; n_actions] /\
    forall b a, b < n_batch -> a < n_actions ->
      qget q [b; a] =
      Qsum_upto N_ATOMS (fun k => Qmult (qget probs [b; a; k])
                                        (qget (supports self) [k])) /\
      forall lo hi,
        (forall k, k < N_ATOMS -> (lo <= qget (supports self) [k] <= hi)%Q) ->
        (lo <= qget q [b; a] <= hi)%Q.
Proof.
  intros Hexp Hf Hs Hsup.
  destruct (CategoricalQValues_probs_ok exp self x Hf Hs) as [probs [Hp [Hsh Hval]]].
  exists probs. eexists. split; [exact Hp|].
  unfold CategoricalQValues_forward. rewrite Hp. cbn [bind].
  unfold mul, binop. rewrite Hsh, Hsup, broadcast_last. cbn [bind].
  unfold sum_dim. cbn [shape tabulate length Nat.ltb Nat.leb].
  split; [reflexivity|]. split; [reflexivity|].
  intros b a Hb Ha.
  assert (Hq : forall k, k < N_ATOMS ->
            qget (tabulate [n_batch; n_actions; N_ATOMS]
                    (fun idx => Qmult (qget probs (bidx [n_batch; n_actions; N_ATOMS] idx))
                                      (qget (supports self) (bidx [N_ATOMS] idx))))
                 [b; a; k]
            = Qmult (qget probs [b; a; k]) (qget (supports self) [k])).
  { intros k Hk. unfold qget at 1. rewrite get_tabulate by (simpl; lia).
    now rewrite bidx_slice, bidx_atom. }
  match goal with |- qget ?t [b; a] = _ /\ _ =>
    assert (Hsum : qget t [b; a] =
                   Qsum_upto N_ATOMS
                     (fun k => Qmult (qget probs [b; a; k]) (qget (supports self) [k])))
  end.
  { unfold qget at 1. rewrite get_tabulate by (simpl; lia).
    cbn [remove_nth nth insert_nth firstn skipn app].
    unfold Qsum_upto. apply f_equal. apply map_ext_in.
    intros k Hk. apply in_seq in Hk. apply Hq. lia. }
  split; [exact Hsum|].
  intros lo hi Hbounds. rewrite Hsum.
  destruct (@softmax_weights exp (fun k => qget cat_out [b; a; k]) N_ATOMS Hexp)
    as [Hnn Hone]; [unfold N_ATOMS; lia|].
  set (p := fun k => Qdiv (exp (qget cat_out [b; a; k]))
                          (Qsum_upto N_ATOMS (fun j => exp (qget cat_out [b; a; j])))) in *.
  assert (Hpk : forall k, k < N_ATOMS -> qget probs [b; a; k] = p k)
    by (intros k Hk; now apply Hval).
  unfold Qsum_upto.
  rewrite map_ext_in with (g := fun k => Qmult (p k) (qget (supports self) [k]))
    by (intros k Hk; apply in_seq in Hk; rewrite Hpk by lia; reflexivity).
  destruct (@Qsum_weighted_bounds p (fun k => qget (supports self) [k]) lo hi
              (seq 0 N_ATOMS)) as [Hlo Hhi].
  - intros k _. apply Hnn.
  - intros k Hk. apply in_seq in Hk. apply Hbounds. lia.
  - fold (Qsum_upto N_ATOMS p) in Hlo, Hhi. rewrite Hone in Hlo, Hhi.
    split; lra.
Qed.

Lemma reducer_expectation_example :
  exists probs q,
    CategoricalQValues_probs exp2 sample_reducer black = Ok probs /\
    CategoricalQValues_forward exp2 sample_reducer black = Ok q /\
    shape q = [2; 6] /\
    forall b a, b < 2 -> a < 6 ->
      qget q [b; a] =
      Qsum_upto N_ATOMS (fun k => Qmult (qget probs [b; a; k])
                                        (qget (supports sample_reducer) [k])) /\
      forall lo hi,
        (forall k, k < N_ATOMS ->
           (lo <= qget (supports sample_reducer) [k] <= hi)%Q) ->
        (lo <= qget q [b; a] <= hi)%Q.
Proof.
  exact (@reducer_expectation exp2 _ Callable_Module sample_reducer black
           (zeros [2; 6; N_ATOMS]) 2 6 exp2_pos eq_refl eq_refl eq_refl).
Defined.

(** ** [calc_loss] on networks that answer with one value per action *)

Lemma flat_map_single {X Y : Type} (f : X -> Y) (l : list X) :
  flat_map (fun i => [f i]) l = map f l.
Proof. induction l as [|x l IH]; simpl; [reflexivity | now rewrite IH]. Qed.

Lemma indices_1d (n : nat) : indices [n] = map (fun i => [i]) (seq 0 n).
Proof. simpl. apply flat_map_single. Qed.

Lemma indices_col (n : nat) : indices [n; 1] = map (fun i => [i; 0]) (seq 0 n).
Proof. simpl. apply (flat_map_single (fun i => [i; 0])). Qed.

Lemma map_enumerate {X Y : Type} (F : nat -> X -> Y) (d : X) (l : list X) (a : nat) :
  map (fun i => F i (nth (i - a) l d)) (seq a (length l)) =
  map (fun '(i, x) => F i x) (combine (seq a (length l)) l).
Proof.
  revert a. induction l as [|x l IH]; intros a; simpl; [reflexivity|].
  rewrite Nat.sub_diag. f_equal. rewrite <- IH.
  apply map_ext_in. intros i Hi. apply in_seq in Hi.
  replace (i - a) with (S (i - S a)) by lia. reflexivity.
Qed.

Lemma column_offset (B i : nat) (l : list Z) :
  get 0%Z (mkTensor [B; 1] l) [i; 0] = nth i l 0%Z.
Proof. unfold get. simpl. f_equal. lia. Qed.

(** Line 126 on an answer [out] of shape [batch; n_actions]. *)
Lemma state_action_values_ok {N : Type} `{nn_Module N} (net : N)
    (states_v out : Tensor Q) (actions : list Z) (n_actions : nat) :
  forward net states_v = Ok out ->
  shape out = [length actions; n_actions] ->
  Forall (fun a => (0 <= a < Z.of_nat n_actions)%Z) actions ->
  state_action_values net states_v (np_array1 actions) =
  Ok (mkTensor [length actions]
        (map (fun i => qget out [i; Z.to_nat (nth i actions 0%Z)])
             (seq 0 (length actions)))).
Proof.
  intros Hf Hs Hall. unfold state_action_values. rewrite Hf. cbn [bind].
  unfold gather, unsqueeze_last, np_array1. cbn [shape data app]. rewrite Hs.
  cbn [length Nat.eqb negb Nat.ltb Nat.leb nth].
  unfold sizes_fit. cbn [length seq forallb Nat.eqb orb nth andb].
  rewrite Nat.leb_refl. cbn [andb negb].
  rewrite indices_col.
  replace (forallb _ (map (fun i => [i; 0]) (seq 0 (length actions)))) with true.
  - cbn [bind]. unfold squeeze_last, tabulate. cbn [shape rev app data].
    rewrite indices_col, map_map. f_equal. f_equal.
    apply map_ext. intros i. rewrite column_offset. reflexivity.
  - symmetry. apply forallb_forall. intros idx Hin.
    apply in_map_iff in Hin. destruct Hin as [i [<- Hi]]. apply in_seq in Hi.
    rewrite column_offset.
    assert (Hin : In (nth i actions 0%Z) actions) by (apply nth_In; lia).
    rewrite Forall_forall in Hall. specialize (Hall _ Hin).
    apply andb_true_iff. split; [apply Z.leb_le | apply Z.ltb_lt]; lia.
Qed.

(** Line 126 when an action is no index of the answer. *)
Lemma state_action_values_bad_action {N : Type} `{nn_Module N} (net : N)
    (states_v out : Tensor Q) (actions : list Z) (n_actions i : nat) :
  forward net states_v = Ok out ->
  shape out = [length actions; n_actions] ->
  i < length actions ->
  (nth i actions 0 < 0 \/ Z.of_nat n_actions <= nth i actions 0)%Z ->
  state_action_values net states_v (np_array1 actions) = Raise RuntimeError.
Proof.
  intros Hf Hs Hi Hbad. unfold state_action_values. rewrite Hf. cbn [bind].
  unfold gather, unsqueeze_last, np_array1. cbn [shape data app]. rewrite Hs.
  cbn [length Nat.eqb negb Nat.ltb Nat.leb nth].
  unfold sizes_fit. cbn [length seq forallb Nat.eqb orb nth andb].
  rewrite Nat.leb_refl. cbn [andb negb].
  rewrite indices_col.
  replace (forallb _ (map (fun i => [i; 0]) (seq 0 (length actions)))) with false;
    [reflexivity|].
  symmetry. apply not_true_is_false. intros Hall.
  rewrite forallb_forall in Hall.
  specialize (Hall [i; 0]). rewrite column_offset in Hall.
  assert (Hin : In [i; 0] (map (fun i => [i; 0]) (seq 0 (length actions))))
    by (apply in_map_iff; exists i; split; [reflexivity | apply in_seq; lia]).
  specialize (Hall Hin). apply andb_true_iff in Hall. destruct Hall as [H1 H2].
  apply Z.leb_le in H1. apply Z.ltb_lt in H2. lia.
Qed.

(** X7.  Line 126 picks, for every transition, the value that the
    network gives to the action taken: with an answer of shape
    [batch; n_actions] and actions that index it, the result has one
    entry per transition, entry [i] being [out[i, actions[i]]].  An
    action below 0 or from [n_actions] on makes the [gather] raise. *)
Theorem prediction_is_value_of_taken_action {N : Type} `{nn_Module N} (net : N)
    (states_v out : Tensor Q) (actions : list Z) (n_actions : nat) :
  forward net states_v = Ok out ->
  shape out = [length actions; n_actions] ->
  (Forall (fun a => (0 <= a < Z.of_nat n_actions)%Z) actions ->
   exists sav,
     state_action_values net states_v (np_array1 actions) = Ok sav /\
     shape sav = [length actions] /\
     forall i a, nth_error actions i = Some a ->
       qget sav [i] = qget out [i; Z.to_nat a]) /\
  (forall i a, nth_error actions i = Some a ->
     (a < 0 \/ Z.of_nat n_actions <= a)%Z ->
     state_action_values net states_v (np_array1 actions) = Raise RuntimeError).
Proof.
  intros Hf Hs. split.
  - intros Hall. eexists.
    split; [eapply state_action_values_ok; eassumption|].
    split; [reflexivity|].
    intros i a Hi. rewrite qget_1d.
    assert (Hlt : i < length actions) by (apply nth_error_Some; congruence).
    rewrite nth_indep with (d' := qget out [0; Z.to_nat (nth 0 actions 0%Z)])
      by (rewrite length_map, length_seq; exact Hlt).
    rewrite (map_nth (fun i => qget out [i; Z.to_nat (nth i actions 0%Z)])).
    rewrite seq_nth by exact Hlt. simpl.
    now rewrite (nth_error_nth _ _ 0%Z Hi).
  - intros i a Hi Hbad.
    assert (Hlt : i < length actions) by (apply nth_error_Some; congruence).
    eapply state_action_values_bad_action; eauto.
    now rewrite (nth_error_nth _ _ 0%Z Hi).
Qed.

Lemma prediction_is_value_of_taken_action_example :
  (Forall (fun a => (0 <= a < Z.of_nat 6)%Z) [1; 0]%Z ->
   exists sav,
     state_action_values sample_qnet black (np_array1 [1; 0]%Z) = Ok sav /\
     shape sav = [length [1; 0]%Z] /\
     forall i a, nth_error [1; 0]%Z i = Some a ->
       qget sav [i] = qget (mkTensor [2; 6] [1; 2; 3; 4; 5; 6; 7; 8; 9; 10; 11; 12]%Q)
                           [i; Z.to_nat a]) /\
  (forall i a, nth_error [1; 0]%Z i = Some a ->
     (a < 0 \/ Z.of_nat 6 <= a)%Z ->
     state_action_values sample_qnet black (np_array1 [1; 0]%Z) = Raise RuntimeError).
Proof.
  exact (@prediction_is_value_of_taken_action _ Callable_Module sample_qnet black
           (mkTensor [2; 6] [1; 2; 3; 4; 5; 6; 7; 8; 9; 10; 11; 12]%Q)
           [1; 0]%Z 6 eq_refl eq_refl).
Defined.

Lemma Qmax_list_ge (l : list Q) :
  forall q, (q <= Qmax_list q l)%Q /\ forall v, In v l -> (v <= Qmax_list q l)%Q.
Proof.
  unfold Qmax_list. induction l as [|x l IH]; intros q; simpl.
  - split; [apply Qle_refl | tauto].
  - destruct (IH (Qmax q x)) as [H1 H2]. split.
    + eapply Qle_trans; [apply Q.le_max_l | exact H1].
    + intros v [<- | Hv]; [|now apply H2].
      eapply Qle_trans; [apply Q.le_max_r | exact H1].
Qed.

Lemma Qmax_list_in (l : list Q) : forall q, In (Qmax_list q l) (q :: l).
Proof.
  unfold Qmax_list. induction l as [|x l IH]; intros q; simpl; [now left|].
  assert (Hm : Qmax q x = q \/ Qmax q x = x)
    by (unfold Qmax, GenericMinMax.gmax; destruct (q ?= x)%Q; auto).
  destruct (IH (Qmax q x)) as [H | H].
  - destruct Hm as [Hm | Hm]; rewrite Hm in H at 1; [left | right; left]; exact H.
  - right. right. exact H.
Qed.

Lemma row_max_spec (out : Tensor Q) (n_actions i : nat) :
  1 <= n_actions ->
  (forall a, a < n_actions -> (qget out [i; a] <= row_max out n_actions i)%Q) /\
  (exists a, a < n_actions /\ row_max out n_actions i = qget out [i; a]).
Proof.
  intros Hn. unfold row_max.
  destruct (Qmax_list_ge (map (fun a => qget out [i; a]) (seq 1 (n_actions - 1)))
              (qget out [i; 0])) as [H0 Hrest].
  split.
  - intros a Ha. destruct a as [|a]; [exact H0|].
    apply Hrest. apply in_map_iff. exists (S a). split; [reflexivity|].
    apply in_seq. lia.
  - destruct (Qmax_list_in (map (fun a => qget out [i; a]) (seq 1 (n_actions - 1)))
                (qget out [i; 0])) as [H | H].
    + exists 0. split; [lia | now symmetry].
    + apply in_map_iff in H. destruct H as [a [Ha Hin]]. apply in_seq in Hin.
      exists a. split; [lia | now symmetry].
Qed.

Lemma nth_map_seq {Y : Type} (F : nat -> Y) (n i : nat) (d : Y) :
  i < n -> nth i (map F (seq 0 n)) d = F i.
Proof.
  intros Hi. rewrite nth_indep with (d' := F 0) by (now rewrite length_map, length_seq).
  rewrite map_nth. now rewrite seq_nth.
Qed.

Lemma nth_scaled_masked (c : Q) (xs : list Q) (ms : list bool) :
  forall i, length xs = length ms -> i < length ms ->
    nth i (map (fun x : Q * bool =>
                  (match x with (e, true) => 0 | (e, false) => e end * c)%Q)
               (combine xs ms)) (0 * c)%Q =
    ((if nth i ms false then 0 else nth i xs 0) * c)%Q.
Proof.
  revert ms. induction xs as [|x xs IH]; intros [|m ms] [|i]; simpl;
    try discriminate; try lia.
  - destruct m; reflexivity.
  - intros Hl Hi. apply IH; lia.
Qed.

(** Lines 127-131 on an answer [out] of shape [batch; n_actions]. *)
Lemma expected_state_action_values_ok {T : Type} `{nn_Module T} (tgt_net : T)
    (next_states_v out : Tensor Q) (dones : list bool) (rewards : list Q)
    (n_actions : nat) :
  forward tgt_net next_states_v = Ok out ->
  shape out = [length dones; n_actions] -> 1 <= n_actions ->
  length rewards = length dones ->
  expected_state_action_values tgt_net next_states_v (np_array1 dones)
    (np_array1 rewards) =
  Ok (mkTensor [length dones]
        (map (fun i => ((if nth i dones false then 0
                         else row_max out n_actions i) * GAMMA +
                        nth i rewards 0)%Q)
             (seq 0 (length dones)))).
Proof.
  intros Hf Hs Hn Hlen.
  destruct n_actions as [|n]; [lia|].
  unfold expected_state_action_values, next_state_values, max_next_values.
  rewrite Hf. cbn [bind].
  rewrite (max_dim_1_ok out Hs). cbn [bind].
  unfold masked_fill, np_array1. cbn [shape data tabulate].
  rewrite list_eqb_refl. cbn [bind].
  unfold add, binop, mul_scalar. cbn [shape data].
  rewrite Hlen, broadcast_same. cbn [bind].
  unfold tabulate. rewrite !indices_1d, !map_map. f_equal. f_equal.
  apply map_ext_in. intros i Hi. apply in_seq in Hi.
  rewrite bidx_1d by lia. rewrite !qget_1d. f_equal.
  rewrite nth_indep with (d' := (0 * GAMMA)%Q)
    by (rewrite !length_map, length_combine, length_map, length_seq; lia).
  rewrite nth_scaled_masked by (rewrite ?length_map, ?length_seq; lia).
  destruct (nth i dones false); [reflexivity|]. f_equal.
  rewrite nth_map_seq by lia.
  unfold row_max. replace (S n - 1) with n by lia. reflexivity.
Qed.

(** X8.  The target of a transition that goes on (its [last_state] is
    not [None]) is its reward plus [GAMMA] times the largest value the
    target network gives to any action in the next state: the value of
    some action, and no smaller than that of any other. *)
Theorem continuing_target_is_bootstrapped {T : Type} `{nn_Module T} (tgt_net : T)
    (batch : list Experience)
    (states : Tensor Q) (actions : Tensor Z) (rewards : Tensor Q)
    (dones : Tensor bool) (next_states out : Tensor Q)
    (n_actions i : nat) (e : Experience) (n : Tensor Q) :
  unpack_batch batch = Ok (states, actions, rewards, dones, next_states) ->
  forward tgt_net next_states = Ok out ->
  shape out = [length batch; n_actions] ->
  1 <= n_actions ->
  nth_error batch i = Some e ->
  last_state e = Some n ->
  exists target,
    expected_state_action_values tgt_net next_states dones rewards = Ok target /\
    qget target [i] = (row_max out n_actions i * GAMMA + reward e)%Q /\
    (forall a, a < n_actions -> (qget out [i; a] <= row_max out n_actions i)%Q) /\
    (exists a, a < n_actions /\ row_max out n_actions i = qget out [i; a]).
Proof.
  intros Hu Hf Hs Hn Hi Hlast.
  destruct (unpack_batch_inv _ Hu) as [st [ns Ha]].
  injection Ha as -> -> -> -> ->.
  assert (Hib : i < length batch) by (apply nth_error_Some; congruence).
  rewrite <- (length_map (fun e => is_None (last_state e)) batch) in Hs.
  eexists. split.
  - apply expected_state_action_values_ok with (n_actions := n_actions);
      [exact Hf | exact Hs | exact Hn | now rewrite !length_map].
  - split; [|exact (row_max_spec out i Hn)].
    rewrite qget_1d, nth_map_seq by (now rewrite length_map).
    rewrite (nth_error_nth _ _ false (x := is_None (last_state e)))
      by (now rewrite nth_error_map, Hi).
    rewrite (nth_error_nth _ _ 0%Q (x := reward e))
      by (now rewrite nth_error_map, Hi).
    now rewrite Hlast.
Qed.

Lemma continuing_target_is_bootstrapped_example :
  exists target,
    expected_state_action_values sample_qnet
      (mkTensor [2; 4; 84; 84] (data white ++ data white ++ []))
      (np_array1 [false; true]) (np_array1 [1; -1]%Q) = Ok target /\
    qget target [0] = (row_max sample_table 6 0 * GAMMA + 1)%Q /\
    (forall a, a < 6 ->
       (qget sample_table [0%nat; a] <= row_max sample_table 6 0)%Q) /\
    (exists a, a < 6 /\ row_max sample_table 6 0 = qget sample_table [0; a]).
Proof.
  exact (@continuing_target_is_bootstrapped _ Callable_Module sample_qnet sample_batch
           _ _ _ _ _ _ 6 0 (mkExperience black 1 1 (Some white)) white
           eq_refl eq_refl eq_refl
           (le_S _ _ (le_S _ _ (le_S _ _ (le_S _ _ (le_S _ _ (le_n 1))))))
           eq_refl eq_refl).
Defined.

Lemma nth_map_in {X Y : Type} (f : X -> Y) (l : list X) (i : nat) (d : X) (dy : Y) :
  i < length l -> nth i (map f l) dy = f (nth i l d).
Proof.
  intros Hi. rewrite nth_indep with (d' := f d) by (now rewrite length_map).
  apply map_nth.
Qed.

Lemma combine_map_same {X Y Z' : Type} (f : X -> Y) (g : X -> Z') (l : list X) :
  combine (map f l) (map g l) = map (fun x => (f x, g x)) l.
Proof. induction l as [|x l IH]; simpl; [reflexivity | now rewrite IH]. Qed.

Lemma Qsum_nonneg (l : list Q) :
  (forall v, In v l -> (0 <= v)%Q) -> (0 <= Qsum l)%Q.
Proof.
  induction l as [|v l IH]; intros Hall; simpl; [apply Qle_refl|].
  assert (H0 : (0 <= v)%Q) by (apply Hall; now left).
  assert (H1 : (0 <= Qsum l)%Q) by (apply IH; intros u Hu; apply Hall; now right).
  lra.
Qed.

Lemma Qsquare_nonneg (x : Q) : (0 <= x * x)%Q.
Proof.
  unfold Qle, Qmult. simpl. rewrite Z.mul_1_r. apply Z.square_nonneg.
Qed.

Lemma squared_td_error_nonneg (out out' : Tensor Q) (n_actions i : nat)
    (e : Experience) : (0 <= squared_td_error out out' n_actions i e)%Q.
Proof. unfold squared_td_error. cbv zeta. apply Qsquare_nonneg. Qed.

(** X9.  With two networks that answer the batch with one value per
    transition and action, and actions that index those answers,
    [calc_loss] returns the mean over the batch of the squared
    differences between [out[i, action_i]] and
    [reward_i + GAMMA * max_a out'[i, a]] (the maximum replaced by 0
    where the episode ended); the loss is never negative. *)
Theorem calc_loss_is_mean_squared_td_error {N T : Type}
    `{nn_Module N} `{nn_Module T} (net : N) (tgt_net : T)
    (batch : list Experience)
    (states : Tensor Q) (actions : Tensor Z) (rewards : Tensor Q)
    (dones : Tensor bool) (next_states out out' : Tensor Q) (n_actions : nat) :
  batch <> [] ->
  unpack_batch batch = Ok (states, actions, rewards, dones, next_states) ->
  forward net states = Ok out ->
  shape out = [length batch; n_actions] ->
  forward tgt_net next_states = Ok out' ->
  shape out' = [length batch; n_actions] ->
  Forall (fun e => (0 <= action e < Z.of_nat n_actions)%Z) batch ->
  exists loss,
    calc_loss batch net tgt_net = Ok loss /\
    loss = (Qsum (map (fun '(i, e) => squared_td_error out out' n_actions i e)
                      (combine (seq 0 (length batch)) batch))
            / inject_Z (Z.of_nat (length batch)))%Q /\
    (0 <= loss)%Q.
Proof.
  intros Hne Hu Hf Hs Hf' Hs' Hact.
  assert (Hn : 1 <= n_actions).
  { destruct batch as [|e0 b0]; [congruence|]. inversion Hact as [|? ? He _]. lia. }
  unfold calc_loss. rewrite Hu. cbn [bind].
  destruct (unpack_batch_inv _ Hu) as [st [ns Ha]].
  injection Ha as -> -> -> -> ->.
  pose (d := mkExperience (zeros []) 0 0 (Some (zeros []))).
  rewrite state_action_values_ok with (out := out) (n_actions := n_actions);
    [ | exact Hf | now rewrite length_map | now rewrite Forall_map ].
  cbn [bind].
  rewrite expected_state_action_values_ok with (out := out') (n_actions := n_actions);
    [ | exact Hf' | now rewrite length_map | exact Hn | now rewrite !length_map ].
  cbn [bind]. unfold MSELoss. cbn [shape data].
  rewrite !length_map, list_eqb_refl, combine_map_same, map_map.
  cbn [numel fold_right]. rewrite Nat.mul_1_r.
  assert (Hsum :
    map (fun i =>
           ((qget out [i; Z.to_nat (nth i (map action batch) 0%Z)] -
             ((if nth i (map (fun e => is_None (last_state e)) batch) false
               then 0 else row_max out' n_actions i) * GAMMA +
              nth i (map reward batch) 0)) *
            (qget out [i; Z.to_nat (nth i (map action batch) 0%Z)] -
             ((if nth i (map (fun e => is_None (last_state e)) batch) false
               then 0 else row_max out' n_actions i) * GAMMA +
              nth i (map reward batch) 0)))%Q)
        (seq 0 (length batch)) =
    map (fun '(i, e) => squared_td_error out out' n_actions i e)
        (combine (seq 0 (length batch)) batch)).
  { rewrite <- (map_enumerate (fun i e => squared_td_error out out' n_actions i e) d batch 0).
    apply map_ext_in. intros i Hi. apply in_seq in Hi. rewrite Nat.sub_0_r.
    rewrite (nth_map_in action batch d 0%Z) by lia.
    rewrite (nth_map_in (fun e => is_None (last_state e)) batch d false) by lia.
    rewrite (nth_map_in reward batch d 0%Q) by lia.
    reflexivity. }
  rewrite Hsum.
  eexists. split; [reflexivity|]. split; [reflexivity|].
  apply Qle_shift_div_l.
  - destruct batch; [congruence|]. simpl length.
    change 0%Q with (inject_Z 0). rewrite <- Zlt_Qlt. lia.
  - rewrite Qmult_0_l. apply Qsum_nonneg. intros v Hv.
    apply in_map_iff in Hv. destruct Hv as [[i e] [<- _]].
    apply squared_td_error_nonneg.
Qed.

Lemma calc_loss_is_mean_squared_td_error_example :
  exists loss,
    calc_loss sample_batch sample_qnet sample_qnet = Ok loss /\
    loss = (Qsum (map (fun '(i, e) => squared_td_error sample_table sample_table 6 i e)
                      (combine (seq 0 (length sample_batch)) sample_batch))
            / inject_Z (Z.of_nat (length sample_batch)))%Q /\
    (0 <= loss)%Q.
Proof.
  assert (Hact : Forall (fun e => (0 <= action e < Z.of_nat 6)%Z) sample_batch)
    by (repeat constructor; simpl; lia).
  assert (Hne : sample_batch <> []) by discriminate.
  exact (@calc_loss_is_mean_squared_td_error _ _ Callable_Module Callable_Module
           sample_qnet sample_qnet sample_batch _ _ _ _ _ sample_table sample_table 6
           Hne eq_refl eq_refl eq_refl eq_refl eq_refl Hact).
Defined.

(** ** The training loop *)

Lemma raw_calc_loss_not_ok (batch : list Experience) (net tgt_net : CategoricalDQN)
    (loss : Q) : calc_loss batch net tgt_net <> Ok loss.
Proof.
  unfold calc_loss.
  destruct (unpack_batch batch) as [a|e] eqn:Hu; [|discriminate].
  destruct (unpack_batch_inv _ Hu) as [states [next_states ->]].
  cbn [bind].
  destruct (forward net states) as [out|e] eqn:Hf.
  - rewrite (raw_state_action_values_raise _ _ _ Hf). discriminate.
  - unfold state_action_values. rewrite Hf. discriminate.
Qed.

Lemma train_cases (env : Env) (st : LoopState) :
  ((buffer_len env < REPLAY_START_SIZE)%Z /\ train env st = (st, Next)) \/
  ((REPLAY_START_SIZE <= buffer_len env)%Z /\
   exists e, train env st =
             (emit [zero_grad; sample BATCH_SIZE; loss_computation] st, Raised e)).
Proof.
  unfold train. destruct (Z.ltb_spec (buffer_len env) REPLAY_START_SIZE) as [Hlt | Hge].
  - left. now split.
  - right. split; [exact Hge|].
    destruct (calc_loss (sampled env) (net st) (target_model st)) as [l|e] eqn:Hc.
    + exfalso. exact (raw_calc_loss_not_ok _ _ _ Hc).
    + now exists e.
Qed.

Lemma iteration_no_step (env : Env) (st : LoopState) :
  exists evs,
    log (fst (iteration env st)) = log st ++ evs /\
    Forall (fun ev => is_step ev = false) evs /\
    net (fst (iteration env st)) = net st /\
    target_model (fst (iteration env st)) = target_model st.
Proof.
  unfold iteration.
  match goal with |- context [report env ?s] =>
    destruct (report_log env s) as [evs [Hl [Hev [Hn Ht]]]];
    destruct (report env s) as [st2 o] end.
  cbn [fst log net target_model] in Hl, Hn, Ht.
  assert (Hev' : Forall (fun ev => is_step ev = false) evs).
  { eapply Forall_impl; [|exact Hev]. intros ev. destruct ev; simpl; congruence. }
  assert (Hl' : log st2 = log st ++ populate 1 :: evs)
    by (rewrite Hl, <- app_assoc; reflexivity).
  destruct o; cbn [fst].
  - destruct (train_cases env st2) as [[_ ->] | [_ [e ->]]]; cbn [fst emit log net target_model].
    + exists (populate 1 :: evs). repeat split; auto.
    + exists (populate 1 :: evs ++ [zero_grad; sample BATCH_SIZE; loss_computation]).
      rewrite Hl', <- app_assoc. repeat split; auto.
      constructor; [reflexivity|]. apply Forall_app. split; [exact Hev'|].
      repeat constructor.
  - exists (populate 1 :: evs). repeat split; auto.
  - exists (populate 1 :: evs). repeat split; auto.
Qed.

(** X10.  The loop as written never changes a parameter.  A pass that
    finds [REPLAY_START_SIZE] or more transitions in the buffer does not
    come back for another one: it stops on the break of the metrics
    block or on an exception, since the loss of line 193 is computed on
    the raw networks.  So in every run no [backward], no optimizer step
    and no target sync is ever logged, and both networks keep their
    parameters. *)
Theorem loop_never_steps :
  (forall env st, (10000 <= buffer_len env)%Z -> snd (iteration env st) <> Next) /\
  (forall envs st,
     exists evs,
       log (fst (run envs st)) = log st ++ evs /\
       Forall (fun ev => is_step ev = false) evs /\
       net (fst (run envs st)) = net st /\
       target_model (fst (run envs st)) = target_model st).
Proof.
  split.
  - intros env st Hge. unfold iteration.
    destruct (report env _) as [st2 o]. destruct o; cbn [snd]; try discriminate.
    destruct (train_cases env st2) as [[Hlt _] | [_ [e ->]]]; [|discriminate].
    unfold REPLAY_START_SIZE in Hlt. lia.
  - induction envs as [|env envs IH]; intros st.
    + exists []. simpl. now rewrite app_nil_r.
    + destruct (iteration_no_step env st) as [evs [Hl [Hev [Hn Ht]]]].
      simpl. destruct (iteration env st) as [st1 o]. cbn [fst] in *.
      destruct o.
      * destruct (IH st1) as [evs' [Hl' [Hev' [Hn' Ht']]]].
        exists (evs ++ evs'). rewrite Hl', Hl, Hn', Ht', <- app_assoc.
        repeat split; auto. apply Forall_app. now split.
      * exists evs. cbn [fst]. repeat split; auto.
      * exists evs. cbn [fst]. repeat split; auto.
Qed.

(** X11.  When an episode has ended and the clock of line 171 still
    shows the time stored in [ts], the speed of line 171 divides by zero:
    the pass ends with ZeroDivisionError after [populate(1)], the new
    rewards already appended, and nothing is printed or written. *)
Theorem zero_clock_interval_raises (env : Env) (st : LoopState) :
  new_rewards env <> [] ->
  (time_171 env == ts st)%Q ->
  snd (iteration env st) = Raised ZeroDivisionError /\
  log (fst (iteration env st)) = log st ++ [populate 1] /\
  total_rewards (fst (iteration env st)) = total_rewards st ++ new_rewards env.
Proof.
  intros Hne Heq. unfold iteration, report. cbn [new_rewards ts].
  destruct (new_rewards env) as [|r0 rs] eqn:Hr; [congruence|].
  cbn [ts].
  assert (Hz : Qeq_bool (time_171 env - ts st) 0 = true).
  { apply Qeq_bool_iff. rewrite Heq. ring. }
  rewrite Hz. cbn [fst snd log total_rewards]. repeat split; reflexivity.
Qed.

Lemma zero_clock_interval_raises_example :
  snd (iteration (mkEnv [21%Q] 1 3 9999 sample_batch sample_net)
                 (initial sample_net 1)) = Raised ZeroDivisionError /\
  log (fst (iteration (mkEnv [21%Q] 1 3 9999 sample_batch sample_net)
                      (initial sample_net 1))) =
    log (initial sample_net 1) ++ [populate 1] /\
  total_rewards (fst (iteration (mkEnv [21%Q] 1 3 9999 sample_batch sample_net)
                                (initial sample_net 1))) =
    total_rewards (initial sample_net 1) ++ [21%Q].
Proof.
  apply (@zero_clock_interval_raises
           (mkEnv [21%Q] 1 3 9999 sample_batch sample_net) (initial sample_net 1)).
  - discriminate.
  - reflexivity.
Defined.

(** X12.  A pass leaves the loop by [break] exactly when an episode has
    ended in it, the clock has moved on, and the mean of the last 100
    episode rewards, the new ones included, is above
    [MEAN_REWARD_BOUND = 19.5]; the last thing it logs is then the
    "Solved" line. *)
Theorem break_iff_solved (env : Env) (st : LoopState) :
  (snd (iteration env st) = Break <->
   new_rewards env <> [] /\
   ~ (time_171 env == ts st)%Q /\
   (39 # 2 < mean_last_100 (total_rewards st ++ new_rewards env))%Q) /\
  (snd (iteration env st) = Break ->
   exists evs, log (fst (iteration env st)) =
               log st ++ evs ++ [print_solved (frame_idx st + 1)]).
Proof.
  unfold iteration, report. cbn [new_rewards ts total_rewards frame_idx log
                                  ts_frame epsilon net target_model].
  destruct (new_rewards env) as [|r0 rs] eqn:Hr.
  { split.
    - split.
      + intros Hb. destruct (train_cases env
          (mkLoopState (frame_idx st + 1) (ts_frame st) (ts st) (total_rewards st)
             (epsilon_at (frame_idx st + 1)) (net st) (target_model st)
             (log st ++ [populate 1]))) as [[_ E] | [_ [e E]]];
          rewrite E in Hb; discriminate.
      + intros [Hne _]. congruence.
    - intros Hb. destruct (train_cases env
          (mkLoopState (frame_idx st + 1) (ts_frame st) (ts st) (total_rewards st)
             (epsilon_at (frame_idx st + 1)) (net st) (target_model st)
             (log st ++ [populate 1]))) as [[_ E] | [_ [e E]]];
          rewrite E in Hb; discriminate. }
  destruct (Qeq_bool (time_171 env - ts st) 0) eqn:Hz.
  { assert (Heq : (time_171 env == ts st)%Q).
    { apply Qeq_bool_iff in Hz. lra. }
    split.
    - split; [discriminate|]. intros [_ [Hn _]]. contradiction.
    - discriminate. }
  assert (Hneq : ~ (time_171 env == ts st)%Q).
  { intros Heq. apply Qeq_bool_neq in Hz. apply Hz. rewrite Heq. ring. }
  destruct (Qle_bool (mean_last_100 (total_rewards st ++ r0 :: rs)) MEAN_REWARD_BOUND)
    eqn:Hm; cbn [negb].
  - assert (Hle : (mean_last_100 (total_rewards st ++ r0 :: rs) <= 39 # 2)%Q)
      by (apply Qle_bool_iff in Hm; exact Hm).
    split.
    + split.
      * intros Hb. match type of Hb with snd (train env ?s) = _ =>
          destruct (train_cases env s) as [[_ E] | [_ [e E]]] end;
          rewrite E in Hb; discriminate.
      * intros [_ [_ Hlt]]. lra.
    + intros Hb. match type of Hb with snd (train env ?s) = _ =>
          destruct (train_cases env s) as [[_ E] | [_ [e E]]] end;
          rewrite E in Hb; discriminate.
  - assert (Hlt : (39 # 2 < mean_last_100 (total_rewards st ++ r0 :: rs))%Q).
    { apply Qnot_le_lt. intros Hle. apply Qle_bool_iff in Hle.
      unfold MEAN_REWARD_BOUND in Hm. congruence. }
    split.
    + split; [intros _ | reflexivity].
      split; [discriminate|]. split; assumption.
    + intros _. cbn [fst emit log].
      match goal with |- exists evs, ((_ ++ ?p) ++ ?l5) ++ _ = _ =>
        exists (p ++ l5) end.
      now rewrite <- !app_assoc.
Qed.

Lemma report_bookkeeping (env : Env) (st : LoopState) :
  frame_idx (fst (report env st)) = frame_idx st /\
  total_rewards (fst (report env st)) = total_rewards st ++ new_rewards env /\
  exists evs, log (fst (report env st)) = log st ++ evs /\
              filter is_populate evs = [].
Proof.
  unfold report.
  destruct (new_rewards env) as [|r0 rs].
  - cbn [fst]. rewrite app_nil_r. repeat split. exists []. now rewrite app_nil_r.
  - destruct (Qeq_bool _ 0).
    + cbn [fst frame_idx total_rewards log]. repeat split.
      exists []. now rewrite app_nil_r.
    + destruct (negb _); cbn [fst emit frame_idx total_rewards log].
      * repeat split. eexists. rewrite <- app_assoc. split; reflexivity.
      * repeat split. eexists. split; reflexivity.
Qed.

Lemma iteration_bookkeeping (env : Env) (st : LoopState) :
  frame_idx (fst (iteration env st)) = (frame_idx st + 1)%Z /\
  total_rewards (fst (iteration env st)) = total_rewards st ++ new_rewards env /\
  exists evs, log (fst (iteration env st)) = log st ++ evs /\
              length (filter is_populate evs) = 1.
Proof.
  unfold iteration.
  match goal with |- context [report env ?s] =>
    destruct (report_bookkeeping env s) as [Hf [Ht [evs [Hl Hp]]]];
    destruct (report env s) as [st2 o] end.
  cbn [fst frame_idx total_rewards log] in Hf, Ht, Hl.
  assert (Hl' : log st2 = log st ++ populate 1 :: evs)
    by (rewrite Hl, <- app_assoc; reflexivity).
  destruct o; cbn [fst].
  - destruct (train_cases env st2) as [[_ ->] | [_ [e ->]]];
      cbn [fst emit frame_idx total_rewards log].
    + repeat split; auto. exists (populate 1 :: evs). split; [exact Hl'|].
      simpl. now rewrite Hp.
    + repeat split; auto.
      exists (populate 1 :: evs ++ [zero_grad; sample BATCH_SIZE; loss_computation]).
      split; [rewrite Hl', <- app_assoc; reflexivity|].
      simpl. rewrite filter_app, Hp. reflexivity.
  - repeat split; auto. exists (populate 1 :: evs). split; [exact Hl'|].
    simpl. now rewrite Hp.
  - repeat split; auto. exists (populate 1 :: evs). split; [exact Hl'|].
    simpl. now rewrite Hp.
Qed.

(** X13.  The bookkeeping of a run.  If [k] passes were begun (all of
    them when the run neither broke nor raised), the frame index has
    grown by [k], the buffer was asked to [populate] exactly [k] times,
    and [total_rewards] has grown by the episode rewards that those [k]
    passes popped, in their order; nothing is ever taken from the log or
    from [total_rewards]. *)
Theorem run_bookkeeping (envs : list Env) (st : LoopState) :
  exists k,
    k <= length envs /\
    (snd (run envs st) = Next -> k = length envs) /\
    frame_idx (fst (run envs st)) = (frame_idx st + Z.of_nat k)%Z /\
    total_rewards (fst (run envs st)) =
      total_rewards st ++ flat_map new_rewards (firstn k envs) /\
    exists evs, log (fst (run envs st)) = log st ++ evs /\
                length (filter is_populate evs) = k.
Proof.
  revert st. induction envs as [|env envs IH]; intros st.
  - exists 0. simpl. rewrite Z.add_0_r, !app_nil_r. repeat split; auto.
    exists []. now rewrite app_nil_r.
  - destruct (iteration_bookkeeping env st) as [Hf [Ht [evs [Hl Hp]]]].
    simpl run. destruct (iteration env st) as [st1 o]. cbn [fst] in Hf, Ht, Hl.
    destruct o.
    + destruct (IH st1) as [k [Hk [Hnext [Hf' [Ht' [evs' [Hl' Hp']]]]]]].
      exists (S k). split; [simpl; lia|]. split; [intros Hn; simpl; f_equal; auto|].
      split; [rewrite Hf', Hf; lia|].
      split; [rewrite Ht', Ht, <- app_assoc; reflexivity|].
      exists (evs ++ evs'). split; [rewrite Hl', Hl, <- app_assoc; reflexivity|].
      rewrite filter_app, length_app. lia.
    + exists 1. cbn [fst snd]. split; [simpl; lia|]. split; [discriminate|].
      split; [exact Hf|]. split; [simpl; rewrite app_nil_r; exact Ht|].
      exists evs. now split.
    + exists 1. cbn [fst snd]. split; [simpl; lia|]. split; [discriminate|].
      split; [exact Hf|]. split; [simpl; rewrite app_nil_r; exact Ht|].
      exists evs. now split.
Qed.

(** X14.  Where the exploration rate meets its floor.  Below frame
    98000 it is the linear term [1 - frame_idx / 100000] and above 0.02;
    after frame 98000 it is 0.02.  Frame 98000 itself is left out: there
    the two arguments of [max] are equal in exact arithmetic, and in
    double precision [1.0 - 0.98] lies one rounding above [0.02]. *)
Theorem epsilon_reaches_floor :
  (forall env st, (frame_idx st + 1 < 98000)%Z ->
     (epsilon (fst (iteration env st)) ==
      1 - inject_Z (frame_idx st + 1) / inject_Z 100000)%Q /\
     (2 # 100 < epsilon (fst (iteration env st)))%Q) /\
  (forall env st, (98000 < frame_idx st + 1)%Z ->
     (epsilon (fst (iteration env st)) == 2 # 100)%Q).
Proof.
  assert (Hdiv : forall f : Z,
            (inject_Z f / inject_Z EPSILON_DECAY_LAST_FRAME ==
             inject_Z f * (1 # 100000))%Q).
  { intros f. unfold Qdiv. reflexivity. }
  split.
  - intros env st Hlt. destruct (iteration_schedule env st) as [_ ->].
    unfold epsilon_at. rewrite Hdiv. unfold EPSILON_START, EPSILON_FINAL.
    assert (Hf : (inject_Z (frame_idx st + 1) < inject_Z 98000)%Q)
      by (rewrite <- Zlt_Qlt; exact Hlt).
    assert (Hgt : (2 # 100 < 1 - inject_Z (frame_idx st + 1) * (1 # 100000))%Q).
    { change (inject_Z 98000) with (98000 # 1)%Q in Hf. lra. }
    rewrite Q.max_r by (apply Qlt_le_weak; exact Hgt).
    split; [|exact Hgt].
    change (inject_Z 100000) with (inject_Z EPSILON_DECAY_LAST_FRAME).
    rewrite Hdiv. reflexivity.
  - intros env st Hgt. destruct (iteration_schedule env st) as [_ ->].
    unfold epsilon_at. rewrite Hdiv. unfold EPSILON_START, EPSILON_FINAL.
    assert (Hf : (inject_Z 98000 < inject_Z (frame_idx st + 1))%Q)
      by (rewrite <- Zlt_Qlt; exact Hgt).
    apply Q.max_l. change (inject_Z 98000) with (98000 # 1)%Q in Hf. lra.
Qed.

Lemma Qsum_bounds (lo hi : Q) (l : list Q) :
  (forall v, In v l -> (lo <= v <= hi)%Q) ->
  (inject_Z (Z.of_nat (length l)) * lo <= Qsum l /\
   Qsum l <= inject_Z (Z.of_nat (length l)) * hi)%Q.
Proof.
  induction l as [|v l IH]; intros Hall.
  - unfold Qsum. cbn [length fold_right Z.of_nat].
    change (inject_Z 0) with 0%Q. split; lra.
  - destruct IH as [IH1 IH2]; [intros u Hu; apply Hall; now right|].
    assert (Hv : (lo <= v <= hi)%Q) by (apply Hall; now left).
    change (Qsum (v :: l)) with (v + Qsum l)%Q. cbn [length].
    rewrite Nat2Z.inj_succ. unfold Z.succ. rewrite inject_Z_plus.
    change (inject_Z 1) with 1%Q. split; lra.
Qed.

(** X15.  The mean of line 174 looks at the last 100 episode rewards
    only: older rewards do not enter.  On a non-empty list it lies
    between any two bounds that hold for all rewards, so no mean is above
    19.5 while every episode reward is at most 19.5. *)
Theorem mean_last_100_window :
  (forall old recent, length recent = 100 ->
     mean_last_100 (old ++ recent) = mean_last_100 recent) /\
  (forall l lo hi, l <> [] ->
     (forall v, In v l -> (lo <= v <= hi)%Q) ->
     (lo <= mean_last_100 l <= hi)%Q).
Proof.
  split.
  - intros old recent Hlen. unfold mean_last_100.
    rewrite length_app, Hlen.
    replace (length old + 100 - 100) with (length old + 0) by lia.
    rewrite skipn_app, Nat.add_0_r, skipn_all.
    replace (length old - length old) with 0 by lia.
    replace (length recent - 100) with 0 by lia.
    reflexivity.
  - intros l lo hi Hne Hall. unfold mean_last_100.
    set (t := skipn (length l - 100) l).
    assert (Hsub : forall v, In v t -> (lo <= v <= hi)%Q).
    { intros v Hv. apply Hall. unfold t in Hv.
      rewrite <- (firstn_skipn (length l - 100) l). apply in_or_app. now right. }
    assert (Hpos : 0 < length t).
    { unfold t. rewrite length_skipn. destruct l; [congruence|]. simpl length. lia. }
    destruct (@Qsum_bounds lo hi t Hsub) as [H1 H2].
    assert (Hn : (0 < inject_Z (Z.of_nat (length t)))%Q).
    { change 0%Q with (inject_Z 0). rewrite <- Zlt_Qlt. lia. }
    split.
    + apply Qle_shift_div_l; [exact Hn|]. lra.
    + apply Qle_shift_div_r; [exact Hn|]. lra.
Qed.
